(** * The structured-output weather agent (02-agent-structured-output.ipynb)

    A shallow embedding of the notebook's executable cells: the
    [WeatherResponse] schema, the [get_weather] tool, the two graphs
    ("Option 1: bind output as tool" and "Option 2: 2 LLMs") with their
    [call_model], [respond] and [should_continue] functions, and the
    wiring [agent -> {tools -> agent | respond -> END}].

    What the notebook imports and does not define is kept apart:
    - the chat model is an oracle ([ChatOpenAI]);
    - pydantic's per-type validators are an interface ([Pydantic]);
    - the tool executor ([ToolNode]) follows the specification's 4.4. *)

From Stdlib Require Import Floats.PrimFloat.
From stdpp Require Import base strings gmap list.

Set Warnings "-register-all".
Set Default Proof Using "Type".

(** ** Python values, exceptions *)

(** Values a JSON-decoded tool-call argument (or a model field) can hold. *)
Inductive pyval :=
| PNone
| PBool (b : bool)
| PInt (z : Z)
| PFloat (f : float)
| PStr (s : string)
| PList (l : list pyval)
| PDict (d : gmap string pyval).

(** A keyword-argument dictionary, and the attribute dictionary of a
    pydantic instance. *)
Abbreviation kwargs := (gmap string pyval).

Inductive exn :=
| IndexError
| AttributeError (attr : string)
| KeyError (key : string)
| AssertionError (msg : string)
| ValidationError
| BackendError
| UnknownToolError (tool : string)
| ToolArgumentError (tool : string)
| ToolExecutionError (cause : exn).

(** A computation that returns or raises. *)
Inductive result (A : Type) :=
| Ok (a : A)
| Raise (e : exn).
Arguments Ok {A} a.
Arguments Raise {A} e.

#[export] Instance result_ret : MRet result := λ A a, Ok a.
#[export] Instance result_bind : MBind result := λ A B f m,
  match m with Ok a => f a | Raise e => Raise e end.

Definition of_option {A} (o : option A) (e : exn) : result A :=
  match o with Some a => Ok a | None => Raise e end.

(** [l[-(k+1)]]: Python's indexing from the end; [IndexError] out of range. *)
Definition getitem_back {A} (l : list A) (k : nat) : result A :=
  of_option (reverse l !! k) IndexError.

(** [l[k]] for a non-negative [k]. *)
Definition getitem {A} (l : list A) (k : nat) : result A :=
  of_option (l !! k) IndexError.

(** ** Messages and the agent state *)

Record ToolCall := mkToolCall {
  tc_name : string;
  tc_args : kwargs;
  tc_id : string
}.

Inductive Message :=
| HumanMessage (text : string)
| AIMessage (text : string) (calls : list ToolCall)
| ToolMessage (text : string) (tool_call_id : string).

Definition content (m : Message) : string :=
  match m with
  | HumanMessage c | AIMessage c _ | ToolMessage c _ => c
  end.

(** Only an [AIMessage] has the attribute [tool_calls]. *)
Definition tool_calls (m : Message) : result (list ToolCall) :=
  match m with
  | AIMessage _ tcs => Ok tcs
  | _ => Raise (AttributeError "tool_calls")
  end.

(** [AgentState]: the [messages] of [MessagesState] plus [final_response],
    a key that is absent until a node sets it. *)
Record AgentState := mkState {
  messages : list Message;
  final_response : option kwargs
}.

(** What a node returns: messages for the [add_messages] reducer to append,
    and, when the key is present, the new [final_response]. *)
Record Update := mkUpdate {
  upd_messages : list Message;
  upd_final_response : option kwargs
}.

Definition apply_update (st : AgentState) (u : Update) : AgentState :=
  {| messages := messages st ++ upd_messages u;
     final_response :=
       match upd_final_response u with
       | Some r => Some r
       | None => final_response st
       end |}.

(** ** The schema: [class WeatherResponse(BaseModel)] *)

Inductive field_type := FloatField | StrField.

(** pydantic's validators for [float] and [str] annotations.  Every mode of
    the library accepts a value that already has the annotated type. *)
Class Pydantic := {
  float_validator : pyval → option float;
  str_validator : pyval → option string;
  float_validator_float : ∀ f, float_validator (PFloat f) = Some f;
  str_validator_str : ∀ s, str_validator (PStr s) = Some s;
  (** [str(instance)], used when an instance is serialised to text. *)
  model_repr : kwargs → string
}.

Definition validate_field {pyd : Pydantic} (t : field_type) (v : pyval) : option pyval :=
  match t with
  | FloatField => PFloat <$> float_validator v
  | StrField => PStr <$> str_validator v
  end.

(** [BaseModel.__init__] on keyword arguments [data], default configuration: each
    declared field is required (no default is given) and validated by its
    annotation; keys of [data] that name no field are ignored. *)
Fixpoint BaseModel_init {pyd : Pydantic} (fields : list (string * field_type))
    (data : kwargs) : result kwargs :=
  match fields with
  | [] => Ok ∅
  | (name, t) :: rest =>
      match data !! name with
      | None => Raise ValidationError
      | Some v =>
          match validate_field t v with
          | None => Raise ValidationError
          | Some v' =>
              match BaseModel_init rest data with
              | Ok r => Ok (<[name := v']> r)
              | Raise e => Raise e
              end
          end
      end
  end.

Definition WeatherResponse_fields : list (string * field_type) :=
  [("temperature", FloatField);
   ("wind_directon", StrField);
   ("wind_speed", FloatField)].

Definition WeatherResponse {pyd : Pydantic} (data : kwargs) : result kwargs :=
  BaseModel_init WeatherResponse_fields data.

(** ** The tool: [get_weather] *)

(** [v == s] for a string literal [s]: false for every value that is not
    that string. *)
Definition py_eq_str (v : pyval) (s : string) : bool :=
  match v with
  | PStr s' => bool_decide (s' = s)
  | _ => false
  end.

Definition get_weather (city : pyval) : result string :=
  if py_eq_str city "paris" then
    Ok "It is cloudy in Paris, with 5 mph winds in the North-East direction and a temperature of 70 degrees"
  else if py_eq_str city "lille" then
    Ok "It is 65 degrees and raining in Lille, with 3 mph winds in the South-East direction"
  else if py_eq_str city "marseille" then
    Ok "It is 75 degrees and sunny in Marseille, with 3 mph winds in the South-East direction"
  else Raise (AssertionError "Unknown city").

(** The cities of the annotation [Literal["paris", "lille", "marseille"]]. *)
Definition supported_cities : list pyval :=
  [PStr "paris"; PStr "lille"; PStr "marseille"].

(** ** The tool registry and the tool executor *)

(** A registry entry: the name the model uses, the check that the supplied
    arguments bind to the callable's parameters, and the implementation. *)
Record Tool := mkTool {
  tool_name : string;
  tool_accepts : kwargs → bool;
  tool_invoke : kwargs → result string
}.

(** [city] is one of the values of [Literal["paris", "lille", "marseille"]]. *)
Definition in_literal (city : pyval) : bool :=
  py_eq_str city "paris" || py_eq_str city "lille" || py_eq_str city "marseille".

(** [@tool def get_weather(city: Literal["paris", "lille", "marseille"])]:
    the decorator turns the signature into the tool's argument contract.  A
    call must carry [city], and its value must be one of the three literals;
    keys other than [city] are ignored.  The body runs only on arguments the
    contract accepts. *)
Definition get_weather_tool : Tool :=
  {| tool_name := "get_weather";
     tool_accepts := λ args,
       match args !! "city" with
       | Some city => in_literal city
       | None => false
       end;
     tool_invoke := λ args,
       city ← of_option (args !! "city") (KeyError "city");
       get_weather city |}.

(** [WeatherResponse] listed among the tools: calling it builds the
    instance, whose text form is the tool's result. *)
Definition WeatherResponse_tool {pyd : Pydantic} : Tool :=
  {| tool_name := "WeatherResponse";
     tool_accepts := λ args,
       match WeatherResponse args with Ok _ => true | Raise _ => false end;
     tool_invoke := λ args, r ← WeatherResponse args; Ok (model_repr r) |}.

(** Modelled from the spec: the Tool Executor (the notebook takes it from
    [langgraph.prebuilt.ToolNode], whose code is not in the repository).
    Section 4.4: for each tool call of the routed message, in order, look
    the tool up by name ([UnknownToolError] if absent), invoke it with the
    supplied arguments ([ToolArgumentError] if they do not satisfy the
    parameter contract, [ToolExecutionError] if the tool itself raises),
    and append a tool result carrying the matching [tool_call_id] and the
    returned text. *)
Definition execute_call (registry : list Tool) (tc : ToolCall) : result Message :=
  match find (λ t, bool_decide (tool_name t = tc_name tc)) registry with
  | None => Raise (UnknownToolError (tc_name tc))
  | Some t =>
      if tool_accepts t (tc_args tc) then
        match tool_invoke t (tc_args tc) with
        | Ok text => Ok (ToolMessage text (tc_id tc))
        | Raise e => Raise (ToolExecutionError e)
        end
      else Raise (ToolArgumentError (tc_name tc))
  end.

(** Modelled from the spec: the results of one assistant message, all
    computed (section 4.4) before control returns; the first failure aborts. *)
Fixpoint execute_calls (registry : list Tool) (tcs : list ToolCall)
    : result (list Message) :=
  match tcs with
  | [] => Ok []
  | tc :: rest =>
      m ← execute_call registry tc;
      ms ← execute_calls registry rest;
      Ok (m :: ms)
  end.

(** Modelled from the spec: the Tool Executor as a graph node, reading the
    tool calls of the last message of the log. *)
Definition ToolNode (registry : list Tool) (state : AgentState) : result Update :=
  last_message ← getitem_back (messages state) 0;
  tcs ← tool_calls last_message;
  results ← execute_calls registry tcs;
  Ok {| upd_messages := results; upd_final_response := None |}.

(** ** The chat model *)

(** [ChatOpenAI(model=..., temperature=0)]: the inference backend, a
    function of the message history it is sent.  [chat_bind_tools names
    tool_choice] is the model with the named tools advertised; a response
    is the text and the requested tool calls of one assistant message.
    [chat_structured] is the schema-constrained call, returning the raw
    arguments the backend produced for the schema. *)
Class ChatOpenAI := {
  chat_bind_tools :
    list string → option string → list Message → result (string * list ToolCall);
  chat_structured : list Message → result kwargs
}.

(** [model_with_tools = model.bind_tools([get_weather])] *)
Definition model_with_tools {chat : ChatOpenAI} (msgs : list Message)
    : result (string * list ToolCall) :=
  chat_bind_tools ["get_weather"] None msgs.

(** [model_with_structured_output = model.with_structured_output(WeatherResponse)]:
    the backend's raw output parsed into an instance of the schema. *)
Definition model_with_structured_output {chat : ChatOpenAI} {pyd : Pydantic}
    (msgs : list Message) : result kwargs :=
  raw ← chat_structured msgs;
  WeatherResponse raw.

(** ** The graph: [StateGraph(AgentState)] *)

Inductive Node := N_agent | N_tools | N_respond | END.

#[export] Instance Node_eq_dec : EqDecision Node.
Proof. solve_decision. Defined.

(** The nodes added with [add_node] and the function given to
    [add_conditional_edges]. *)
Record StateGraph := mkGraph {
  node_agent : AgentState → result Update;
  node_respond : AgentState → result Update;
  node_tools : AgentState → result Update;
  condition : AgentState → result string
}.

(** The mapping of [add_conditional_edges]:
    [{"continue": "tools", "respond": "respond"}]. *)
Definition path_map (key : string) : result Node :=
  if bool_decide (key = "continue") then Ok N_tools
  else if bool_decide (key = "respond") then Ok N_respond
  else Raise (KeyError key).

(** One transition: run the node on the state, merge its update, follow the
    outgoing edge ([agent] has the conditional edge, [tools -> agent],
    [respond -> END]). *)
Definition step (g : StateGraph) (n : Node) (st : AgentState)
    : result (Node * AgentState) :=
  match n with
  | N_agent =>
      u ← node_agent g st;
      let st' := apply_update st u in
      key ← condition g st';
      next ← path_map key;
      Ok (next, st')
  | N_tools =>
      u ← node_tools g st;
      Ok (N_agent, apply_update st u)
  | N_respond =>
      u ← node_respond g st;
      Ok (END, apply_update st u)
  | END => Ok (END, st)
  end.

(** How a bounded run ends. *)
Inductive outcome (A : Type) :=
| Finished (a : A)
| Failed (e : exn)
| OutOfFuel.
Arguments Finished {A} a.
Arguments Failed {A} e.
Arguments OutOfFuel {A}.

(** The run loop, bounded by a number of node executions. *)
Fixpoint run (g : StateGraph) (fuel : nat) (n : Node) (st : AgentState)
    : outcome AgentState :=
  match n with
  | END => Finished st
  | _ =>
      match fuel with
      | 0 => OutOfFuel
      | S fuel' =>
          match step g n st with
          | Raise e => Failed e
          | Ok (n', st') => run g fuel' n' st'
          end
      end
  end.

(** The unbounded run, as a relation: the graph itself has no bound. *)
Inductive runs (g : StateGraph) : Node → AgentState → result AgentState → Prop :=
| runs_end st :
    runs g END st (Ok st)
| runs_raise n st e :
    n ≠ END → step g n st = Raise e → runs g n st (Raise e)
| runs_step n st n' st' o :
    n ≠ END → step g n st = Ok (n', st') → runs g n' st' o → runs g n st o.

(** The state [graph.invoke(input={"messages": [("human", seed)]})] starts from. *)
Definition initial_state (seed : string) : AgentState :=
  {| messages := [HumanMessage seed]; final_response := None |}.

(** The configurations a run from [seed] passes through. *)
Inductive reachable (g : StateGraph) (seed : string) : Node → AgentState → Prop :=
| reachable_init :
    reachable g seed N_agent (initial_state seed)
| reachable_step n st n' st' :
    reachable g seed n st → n ≠ END → step g n st = Ok (n', st') →
    reachable g seed n' st'.

(** [graph.invoke(...)["final_response"]] *)
Definition invoke (g : StateGraph) (fuel : nat) (seed : string) : outcome kwargs :=
  match run g fuel N_agent (initial_state seed) with
  | Finished st =>
      match final_response st with
      | Some r => Finished r
      | None => Failed (KeyError "final_response")
      end
  | Failed e => Failed e
  | OutOfFuel => OutOfFuel
  end.

(** ** Option 1: bind output as tool *)

Module Option1.
Section Graph.
Context {chat : ChatOpenAI} {pyd : Pydantic}.

(** [tools = [get_weather, WeatherResponse]] *)
Definition tools : list Tool := [get_weather_tool; WeatherResponse_tool].

(** [model.bind_tools(tools, tool_choice="any")] *)
Definition model_with_response_tool (msgs : list Message)
    : result (string * list ToolCall) :=
  chat_bind_tools ["get_weather"; "WeatherResponse"] (Some "any") msgs.

Definition call_model (state : AgentState) : result Update :=
  response ← model_with_response_tool (messages state);
  Ok {| upd_messages := [AIMessage response.1 response.2];
        upd_final_response := None |}.

Definition respond (state : AgentState) : result Update :=
  last_message ← getitem_back (messages state) 0;
  tcs ← tool_calls last_message;
  weather_tool_call ← getitem tcs 0;
  response ← WeatherResponse (tc_args weather_tool_call);
  let tool_message :=
    ToolMessage "Here is your structured response" (tc_id weather_tool_call) in
  Ok {| upd_final_response := Some response; upd_messages := [tool_message] |}.

Definition should_continue (state : AgentState) : result string :=
  last_message ← getitem_back (messages state) 0;
  tcs ← tool_calls last_message;
  if bool_decide (length tcs = 1) then
    first_call ← getitem tcs 0;
    if bool_decide (tc_name first_call = "WeatherResponse")
    then Ok "respond"
    else Ok "continue"
  else Ok "continue".

Definition graph : StateGraph :=
  {| node_agent := call_model;
     node_respond := respond;
     node_tools := ToolNode tools;
     condition := should_continue |}.

End Graph.
End Option1.

(** ** Option 2: 2 LLMs *)

Module Option2.
Section Graph.
Context {chat : ChatOpenAI} {pyd : Pydantic}.

(** [ToolNode(tools)] reads the notebook's global [tools], which the
    Option 1 cell has rebound to [[get_weather, WeatherResponse]] by the
    time this cell runs; the model itself is bound to [get_weather] only. *)
Definition tools : list Tool := [get_weather_tool; WeatherResponse_tool].

Definition call_model (state : AgentState) : result Update :=
  response ← model_with_tools (messages state);
  Ok {| upd_messages := [AIMessage response.1 response.2];
        upd_final_response := None |}.

(** The argument of the structured call:
    [[HumanMessage(content=state["messages"][-2].content)]]. *)
Definition respond_input (state : AgentState) : result (list Message) :=
  m ← getitem_back (messages state) 1;
  Ok [HumanMessage (content m)].

Definition respond (state : AgentState) : result Update :=
  input ← respond_input state;
  response ← model_with_structured_output input;
  Ok {| upd_final_response := Some response; upd_messages := [] |}.

Definition should_continue (state : AgentState) : result string :=
  last_message ← getitem_back (messages state) 0;
  tcs ← tool_calls last_message;
  if bool_decide (tcs = [])
  then Ok "respond"
  else Ok "continue".

Definition graph : StateGraph :=
  {| node_agent := call_model;
     node_respond := respond;
     node_tools := ToolNode tools;
     condition := should_continue |}.

End Graph.
End Option2.

(** ** Properties of logs and records *)

(** The number of tool results carrying [i] that follow in [rest] before
    the next assistant message. *)
Fixpoint results_before_next_ai (i : string) (rest : list Message) : nat :=
  match rest with
  | [] => 0
  | AIMessage _ _ :: _ => 0
  | ToolMessage _ j :: rest' =>
      (if bool_decide (i = j) then 1 else 0) + results_before_next_ai i rest'
  | HumanMessage _ :: rest' => results_before_next_ai i rest'
  end.

(** The pairing invariant: every tool call of every assistant message is
    answered exactly once before the next assistant message. *)
Fixpoint paired (log : list Message) : bool :=
  match log with
  | [] => true
  | AIMessage _ tcs :: rest =>
      forallb (λ tc, Nat.eqb (results_before_next_ai (tc_id tc) rest) 1) tcs
      && paired rest
  | _ :: rest => paired rest
  end.

Definition is_ToolMessage (m : Message) : bool :=
  match m with ToolMessage _ _ => true | _ => false end.

(** The content of the most recent tool result of a log, if it has one. *)
Definition last_tool_result (log : list Message) : option string :=
  content <$> head (filter (λ m, is_ToolMessage m = true) (reverse log)).

(** A value has the type its field is annotated with. *)
Definition has_type (t : field_type) (v : pyval) : bool :=
  match t, v with
  | FloatField, PFloat _ => true
  | StrField, PStr _ => true
  | _, _ => false
  end.

(** An instance of a schema: exactly the declared fields, each holding a
    value of its type. *)
Definition instance_of (fields : list (string * field_type)) (r : kwargs) : Prop :=
  dom r = list_to_set fields.*1 ∧
  ∀ name t, (name, t) ∈ fields → ∃ v, r !! name = Some v ∧ has_type t v = true.

(** No key of the arguments is outside the schema. *)
Definition only_declared (fields : list (string * field_type)) (data : kwargs) : Prop :=
  ∀ k, k ∈ dom data → k ∈ fields.*1.

(** [needle in haystack] *)
Fixpoint mentions (needle haystack : string) : bool :=
  String.prefix needle haystack ||
  match haystack with
  | EmptyString => false
  | String _ rest => mentions needle rest
  end.

(** Within [tol] of [target]. *)
Definition approx (x target tol : float) : bool :=
  PrimFloat.leb (PrimFloat.abs (PrimFloat.sub x target)) tol.

(** 3 mph in the unit of the schema's [wind_speed], km/h. *)
Definition three_mph_in_kmh : float := 4.828125%float.

(** The record scenario A expects for Lille: about 65 degrees, wind from the
    South-East, about 3 mph converted to km/h. *)
Definition scenario_A_record (r : kwargs) : Prop :=
  ∃ t d s,
    r !! "temperature" = Some (PFloat t) ∧
    r !! "wind_directon" = Some (PStr d) ∧
    r !! "wind_speed" = Some (PFloat s) ∧
    approx t 65 1 = true ∧ d = "SE" ∧ approx s three_mph_in_kmh 0.5 = true.

(** The sole request of the turn is the schema tool. *)
Definition sole_schema_call (tcs : list ToolCall) : Prop :=
  ∃ tc, tcs = [tc] ∧ tc_name tc = "WeatherResponse".

(** The strict reading of schema validation: constructing the record from
    [data] fails, or it yields an instance of the schema and [data] had no
    key the schema does not declare. *)
Definition strict_validation {pyd : Pydantic} (data : kwargs) : Prop :=
  match WeatherResponse data with
  | Ok r => instance_of WeatherResponse_fields r ∧
            only_declared WeatherResponse_fields data
  | Raise _ => True
  end.

(** The seed of scenario A and the tool's answer for Lille. *)
Definition lille_seed : string := "what's the weather in Lille?".

Definition lille_description : string :=
  "It is 65 degrees and raining in Lille, with 3 mph winds in the South-East direction".

(** Scenario A as a promise about the graph run with a given model: the
    tool's answer for Lille mentions 65 degrees and a 3 mph South-East wind,
    and whatever record an invocation on the seed returns is the expected
    one. *)
Definition scenario_A {chat : ChatOpenAI} {pyd : Pydantic} : Prop :=
  (∃ text, get_weather (PStr "lille") = Ok text ∧
           mentions "65 degrees" text = true ∧
           mentions "3 mph" text = true ∧
           mentions "South-East" text = true) ∧
  ∀ fuel r, invoke Option1.graph fuel lille_seed = Finished r → scenario_A_record r.

(** The model never repeats a tool-call identifier within one message. *)
Definition unique_call_ids (chat : ChatOpenAI) : Prop :=
  ∀ names tool_choice msgs text tcs,
    chat_bind_tools names tool_choice msgs = Ok (text, tcs) →
    NoDup (tc_id <$> tcs).

(** The log ends with an assistant message whose calls are still to be
    answered, everything before it being paired. *)
Definition pending (P : list ToolCall → Prop) (st : AgentState) : Prop :=
  ∃ log text tcs,
    messages st = log ++ [AIMessage text tcs] ∧
    paired log = true ∧ NoDup (tc_id <$> tcs) ∧ P tcs.

(** The node each router's answer leads to, by the calls of the last message. *)
Definition route1 (tcs : list ToolCall) : Node :=
  match tcs with
  | [tc] => if bool_decide (tc_name tc = "WeatherResponse") then N_respond else N_tools
  | _ => N_tools
  end.

Definition route2 (tcs : list ToolCall) : Node :=
  match tcs with
  | [] => N_respond
  | _ => N_tools
  end.

(** What holds of the log at each node of either graph: paired when the
    model is about to be called or the run has ended; otherwise paired up to
    the last assistant message, which the next node answers. *)
Definition inv1 (n : Node) (st : AgentState) : Prop :=
  match n with
  | N_agent | END => paired (messages st) = true
  | N_tools => pending (λ _, True) st
  | N_respond => pending sole_schema_call st
  end.

(** The same for Option 2, whose finalizer runs on a message without calls. *)
Definition inv2 (n : Node) (st : AgentState) : Prop :=
  match n with
  | N_agent | END => paired (messages st) = true
  | N_tools => pending (λ _, True) st
  | N_respond => pending (λ tcs, tcs = []) st
  end.

(** ** Concrete collaborators used in the examples *)

(** Validators that accept a value of the annotated type as it is. *)
Definition exact_types : Pydantic :=
  {| float_validator := λ v, match v with PFloat f => Some f | _ => None end;
     str_validator := λ v, match v with PStr s => Some s | _ => None end;
     float_validator_float := λ f, eq_refl;
     str_validator_str := λ s, eq_refl;
     model_repr := λ _, "WeatherResponse(...)" |}.

Definition call (name : string) (args : list (string * pyval)) (id : string) : ToolCall :=
  {| tc_name := name; tc_args := list_to_map args; tc_id := id |}.

(** The record shown in the notebook's output cell for the Lille question:
    [WeatherResponse(temperature=65.0, wind_directon='N', wind_speed=15.0)]. *)
Definition recorded_args : list (string * pyval) :=
  [("temperature", PFloat 65); ("wind_directon", PStr "N"); ("wind_speed", PFloat 15)].

(** A model that asks for Lille's weather on the seed and then answers with
    the recorded arguments. *)
Definition replayed_model : ChatOpenAI :=
  {| chat_bind_tools := λ _ _ msgs,
       match msgs with
       | [_] => Ok ("", [call "get_weather" [("city", PStr "lille")] "call_1"])
       | _ => Ok ("", [call "WeatherResponse" recorded_args "call_2"])
       end;
     chat_structured := λ _, Ok (list_to_map recorded_args) |}.

(** A model that answers in plain text and requests no tool. *)
Definition chatty_model : ChatOpenAI :=
  {| chat_bind_tools := λ _ _ _, Ok ("Hello! How can I help you?", []);
     chat_structured := λ _, Ok (list_to_map recorded_args) |}.

(** A model that asks for the weather of a city the tool does not know. *)
Definition london_model : ChatOpenAI :=
  {| chat_bind_tools := λ _ _ _,
       Ok ("", [call "get_weather" [("city", PStr "london")] "call_1"]);
     chat_structured := λ _, Ok (list_to_map recorded_args) |}.

(** Arguments with one key the schema does not declare. *)
Definition args_with_humidity : kwargs :=
  list_to_map (("humidity", PInt 80) :: recorded_args).

(** Arguments that spell the wind field [wind_direction]. *)
Definition args_wind_direction : kwargs :=
  list_to_map
    [("temperature", PFloat 65); ("wind_direction", PStr "SE"); ("wind_speed", PFloat 4.828125)].

(** The state in which Option 1's finalizer runs after the replayed model's
    second turn. *)
Definition state_before_respond1 : AgentState :=
  {| messages :=
       [HumanMessage lille_seed;
        AIMessage "" [call "get_weather" [("city", PStr "lille")] "call_1"];
        ToolMessage lille_description "call_1";
        AIMessage "" [call "WeatherResponse" recorded_args "call_2"]];
     final_response := None |}.

(** The state in which Option 2's finalizer runs when the model answered the
    seed in plain text, without a tool round. *)
Definition state_without_tool_round : AgentState :=
  {| messages :=
       [HumanMessage "hello"; AIMessage "Hello! How can I help you?" []];
     final_response := None |}.

(** The state in which Option 2's finalizer runs after one tool round. *)
Definition state_after_tool_round : AgentState :=
  {| messages :=
       [HumanMessage lille_seed;
        AIMessage "" [call "get_weather" [("city", PStr "lille")] "call_1"];
        ToolMessage lille_description "call_1";
        AIMessage "It is 65 degrees in Lille." []];
     final_response := None |}.

(** The state Option 1's run on the replayed model ends in. *)
Definition state_after_respond1 : AgentState :=
  {| messages :=
       messages state_before_respond1 ++
       [ToolMessage "Here is your structured response" "call_2"];
     final_response := Some (list_to_map recorded_args) |}.

(** ** Setup: [_set_env] *)

Module Setup.

(** What the process-level calls of the setup cell can raise. *)
Inductive os_exn :=
| ValueError
| EOFError
| KeyboardInterrupt.

Inductive io_result (A : Type) :=
| Returns (a : A)
| Throws (e : os_exn).
Arguments Returns {A} a.
Arguments Throws {A} e.

(** The process as the setup cell sees it: the mapping [os.environ] and the
    prompts shown on the terminal so far. *)
Record Process := mkProcess {
  environ : gmap string string;
  prompted : list string
}.

(** The operating-system side: what the user types at a password prompt (or
    the exception that ends the prompt), and whether [os.environ] accepts a
    name and a value (it raises [ValueError] on the ones it refuses). *)
Class Os := {
  getpass : string → io_result string;
  putenv_accepts : string → string → bool
}.

(** [os.environ[key] = value] *)
Definition environ_setitem {os : Os} (key value : string) (p : Process)
    : io_result unit * Process :=
  if putenv_accepts key value
  then (Returns (), {| environ := <[key := value]> (environ p); prompted := prompted p |})
  else (Throws ValueError, p).

Definition _set_env {os : Os} (key : string) (p : Process) : io_result unit * Process :=
  if bool_decide (key ∈ dom (environ p)) then (Returns (), p)
  else
    let prompt := key +:+ ":" in
    let p1 := {| environ := environ p; prompted := prompted p ++ [prompt] |} in
    match getpass prompt with
    | Returns value => environ_setitem key value p1
    | Throws e => (Throws e, p1)
    end.

(** The cell's own call: [_set_env("OPENAI_API_KEY")]. *)
Definition setup {os : Os} (p : Process) : io_result unit * Process :=
  _set_env "OPENAI_API_KEY" p.

(** A user who types the same secret at every prompt, on a system that
    refuses the empty name. *)
Definition typing_user : Os :=
  {| getpass := λ _, Returns "sk-test";
     putenv_accepts := λ key _, negb (bool_decide (key = "")) |}.

Definition fresh_process : Process :=
  {| environ := {["HOME" := "/root"]}; prompted := [] |}.

End Setup.

(** The state after the replayed model's first turn on the Lille seed. *)
Definition state_after_first_turn : AgentState :=
  {| messages :=
       [HumanMessage lille_seed;
        AIMessage "" [call "get_weather" [("city", PStr "lille")] "call_1"]];
     final_response := None |}.

(** The final state of a completed run of Option 1 that started from the
    log [start]. *)
Definition ends_with_schema_call {pyd : Pydantic}
    (start : list Message) (st' : AgentState) : Prop :=
  ∃ log text tc r,
    messages st' =
      log ++ [AIMessage text [tc];
              ToolMessage "Here is your structured response" (tc_id tc)] ∧
    start `prefix_of` log ∧
    tc_name tc = "WeatherResponse" ∧
    WeatherResponse (tc_args tc) = Ok r ∧
    final_response st' = Some r.

(** The final state of a completed run of Option 2 that started from the
    log [start]. *)
Definition ends_with_structured_call {chat : ChatOpenAI} {pyd : Pydantic}
    (start : list Message) (st' : AgentState) : Prop :=
  ∃ log m text raw r,
    messages st' = log ++ [m; AIMessage text []] ∧
    start `prefix_of` log ++ [m] ∧
    chat_structured [HumanMessage (content m)] = Ok raw ∧
    WeatherResponse raw = Ok r ∧
    final_response st' = Some r.

(** Scenario B as a promise about the graph run with a given model, for a
    seed and a city: the tool's body raises the assertion error on the city,
    and the invocation on the seed fails with that error as a tool execution
    error. *)
Definition scenario_B {chat : ChatOpenAI} {pyd : Pydantic}
    (seed : string) (city : pyval) : Prop :=
  get_weather city = Raise (AssertionError "Unknown city") ∧
  ∀ fuel, invoke Option1.graph (2 + fuel) seed =
          Failed (ToolExecutionError (AssertionError "Unknown city")).

(** ** Basic facts *)

Lemma getitem_back_last {A} (l : list A) (x : A) :
  getitem_back (l ++ [x]) 0 = Ok x.
Proof. unfold getitem_back. by rewrite reverse_snoc. Qed.

Lemma getitem_back_second {A} (l : list A) (y x : A) :
  getitem_back (l ++ [y; x]) 1 = Ok y.
Proof.
  unfold getitem_back.
  replace (l ++ [y; x]) with ((l ++ [y]) ++ [x]) by by rewrite <- app_assoc.
  by rewrite !reverse_snoc.
Qed.

Lemma bind_Ok {A B} (m : result A) (f : A → result B) (b : B) :
  m ≫= f = Ok b ↔ ∃ a, m = Ok a ∧ f a = Ok b.
Proof.
  destruct m as [a|e]; simpl; split.
  - eauto.
  - by intros (? & [= ->] & ?).
  - done.
  - by intros (? & ? & ?).
Qed.

Lemma run_END g fuel st : run g fuel END st = Finished st.
Proof. by destruct fuel. Qed.

Ltac inv_bind H :=
  repeat match type of H with
  | _ ≫= _ = Ok _ => apply bind_Ok in H; destruct H as (? & ? & H)
  end.

(** ** The routers *)

Section Routers.

Implicit Types (log : list Message) (tcs : list ToolCall).

Lemma should_continue1_eval log text tcs fr :
  Option1.should_continue (mkState (log ++ [AIMessage text tcs]) fr) =
  match tcs with
  | [tc] => if bool_decide (tc_name tc = "WeatherResponse")
            then Ok "respond" else Ok "continue"
  | _ => Ok "continue"
  end.
Proof.
  unfold Option1.should_continue. simpl. rewrite getitem_back_last. simpl.
  destruct tcs as [|tc [|tc' rest]]; done.
Qed.

Lemma should_continue2_eval log text tcs fr :
  Option2.should_continue (mkState (log ++ [AIMessage text tcs]) fr) =
  match tcs with
  | [] => Ok "respond"
  | _ => Ok "continue"
  end.
Proof.
  unfold Option2.should_continue. simpl. rewrite getitem_back_last. simpl.
  by destruct tcs.
Qed.

Local Ltac solve_route :=
  simpl; try done;
  try (by intros (? & ? & ?));
  try (by intros (? & [= <-] & ?));
  try (by intros _ (? & ? & ?));
  try (by intros _ (? & [= <-] & ?));
  try (by intros _; eauto);
  try (by intros _ Hc; apply Hc; eauto);
  try (by intros Hc; exfalso; apply Hc; eauto).

(** C1. Option 1's router, on any log that ends with an assistant message
    (whatever came before it): it answers "respond", which the conditional
    edge maps to the [respond] node, exactly when the message has exactly one
    tool call and that call is named "WeatherResponse"; otherwise it answers
    "continue", mapped to the [tools] node.  In particular a message with the
    schema call and any other call continues. *)
Theorem router1_respond_iff_sole_schema_call log text tcs fr :
  let st := mkState (log ++ [AIMessage text tcs]) fr in
  (Option1.should_continue st = Ok "respond" ↔ sole_schema_call tcs) ∧
  (Option1.should_continue st = Ok "continue" ↔ ¬ sole_schema_call tcs) ∧
  (Option1.should_continue st ≫= path_map = Ok N_respond ↔ sole_schema_call tcs) ∧
  (Option1.should_continue st ≫= path_map = Ok N_tools ↔ ¬ sole_schema_call tcs) ∧
  (∀ schema_call other rest,
     tc_name schema_call = "WeatherResponse" →
     tcs ≡ₚ schema_call :: other :: rest →
     Option1.should_continue st ≫= path_map = Ok N_tools).
Proof.
  intros st. subst st. rewrite should_continue1_eval. unfold sole_schema_call.
  destruct tcs as [|tc [|tc' rest]]; simpl.
  - split_and!; [split; solve_route ..|].
    intros ? ? ? _ Hp. by apply Permutation_nil_cons in Hp.
  - case_bool_decide as Hn; simpl.
    + split_and!; [split; solve_route ..|].
      intros ? ? ? _ Hp. by apply Permutation_length in Hp.
    + split_and!; [split; solve_route ..|done].
  - split_and!; [split; solve_route ..|done].
Qed.

(** C2. Option 2's router, on any log that ends with an assistant message:
    "respond" (the [respond] node) exactly when the message has no tool call,
    "continue" (the [tools] node, which leads back to [agent]) exactly when
    it has at least one. *)
Theorem router2_respond_iff_no_tool_call {chat : ChatOpenAI} {pyd : Pydantic} log text tcs fr :
  let st := mkState (log ++ [AIMessage text tcs]) fr in
  (Option2.should_continue st = Ok "respond" ↔ tcs = []) ∧
  (Option2.should_continue st = Ok "continue" ↔ 1 ≤ length tcs) ∧
  (Option2.should_continue st ≫= path_map = Ok N_respond ↔ length tcs = 0) ∧
  (Option2.should_continue st ≫= path_map = Ok N_tools ↔ 1 ≤ length tcs) ∧
  (∀ st', step Option2.graph N_tools st = Ok st' → st'.1 = N_agent).
Proof.
  intros st. subst st. rewrite should_continue2_eval.
  assert (∀ st st', step Option2.graph N_tools st = Ok st' → st'.1 = N_agent)
    as Hloop.
  { intros st st' Hs. simpl in Hs. inv_bind Hs. by injection Hs as <-. }
  destruct tcs as [|tc rest]; simpl.
  - split_and!; [split; (done || lia) ..|eauto].
  - split_and!; [split; (done || lia) ..|eauto].
Qed.

End Routers.

(** ** The schema constructor *)

Section Schema.
Context {pyd : Pydantic}.

Implicit Types (fields : list (string * field_type)) (data r : kwargs).

Lemma validate_field_has_type t v v' :
  validate_field t v = Some v' → has_type t v' = true.
Proof.
  destruct t; simpl; intros Hv; apply fmap_Some in Hv as (? & _ & ->); done.
Qed.

(** Construction fails only with a validation error. *)
Lemma BaseModel_init_Raise fields data e :
  BaseModel_init fields data = Raise e → e = ValidationError.
Proof.
  induction fields as [|[name t] rest IH]; simpl; [done|].
  destruct (data !! name) as [v|]; [|congruence].
  destruct (validate_field t v) as [v'|]; [|congruence].
  destruct (BaseModel_init rest data) as [r|e'] eqn:Hrest; [done|].
  intros [= <-]. by apply IH.
Qed.

(** A constructed instance has exactly the declared attributes. *)
Lemma BaseModel_init_dom fields data r :
  BaseModel_init fields data = Ok r → dom r = list_to_set fields.*1.
Proof.
  revert r. induction fields as [|[name t] rest IH]; simpl; intros r.
  - intros [= <-]. by rewrite dom_empty_L.
  - destruct (data !! name) as [v|]; [|done].
    destruct (validate_field t v) as [v'|]; [|done].
    destruct (BaseModel_init rest data) as [r'|] eqn:Hrest; [|done].
    intros [= <-]. rewrite dom_insert_L. by rewrite (IH r').
Qed.

(** Each attribute is the validated argument of the same name. *)
Lemma BaseModel_init_lookup fields data r name t :
  NoDup fields.*1 →
  BaseModel_init fields data = Ok r →
  (name, t) ∈ fields →
  ∃ v v', data !! name = Some v ∧ validate_field t v = Some v' ∧ r !! name = Some v'.
Proof.
  revert r. induction fields as [|[name0 t0] rest IH]; simpl; intros r Hnd Hr Hin.
  - by apply elem_of_nil in Hin.
  - apply NoDup_cons in Hnd as [Hfresh Hnd].
    destruct (data !! name0) as [v|] eqn:Hdata; [|done].
    destruct (validate_field t0 v) as [v'|] eqn:Hval; [|done].
    destruct (BaseModel_init rest data) as [r'|] eqn:Hrest; [|done].
    injection Hr as <-.
    apply elem_of_cons in Hin as [[= -> ->]|Hin].
    + exists v, v'. by rewrite lookup_insert_eq.
    + destruct (IH r' Hnd eq_refl Hin) as (w & w' & ? & ? & ?).
      exists w, w'. split_and!; try done.
      rewrite lookup_insert_ne; [done|].
      intros ->. apply Hfresh. apply list_elem_of_fmap. by exists (name, t).
Qed.

(** A missing or ill-typed argument for a declared field is an error. *)
Lemma BaseModel_init_invalid fields data name t :
  (name, t) ∈ fields →
  data !! name ≫= validate_field t = None →
  BaseModel_init fields data = Raise ValidationError.
Proof.
  induction fields as [|[name0 t0] rest IH]; simpl; intros Hin Hbad.
  - by apply elem_of_nil in Hin.
  - apply elem_of_cons in Hin as [[= <- <-]|Hin].
    + destruct (data !! name) as [v|]; simpl in Hbad; [|done]. by rewrite Hbad.
    + destruct (data !! name0) as [v|]; [|done].
      destruct (validate_field t0 v); [|done].
      by rewrite IH.
Qed.

(** When every declared field has a valid argument, an instance is built. *)
Lemma BaseModel_init_total fields data :
  (∀ name t, (name, t) ∈ fields → is_Some (data !! name ≫= validate_field t)) →
  ∃ r, BaseModel_init fields data = Ok r.
Proof.
  induction fields as [|[name t] rest IH]; simpl; intros Hall; [by eexists|].
  destruct (Hall name t) as [v' Hv]; [by left|].
  destruct (data !! name) as [v|]; simpl in Hv; [|done]. rewrite Hv.
  destruct IH as [r ->]; [|by eexists].
  intros ???. apply Hall. by right.
Qed.

(** Keys that name no field do not influence construction. *)
Lemma BaseModel_init_extra fields data k v :
  k ∉ fields.*1 →
  BaseModel_init fields (<[k := v]> data) = BaseModel_init fields data.
Proof.
  induction fields as [|[name t] rest IH]; simpl; intros Hk; [done|].
  apply not_elem_of_cons in Hk as [Hne Hk].
  rewrite lookup_insert_ne; [|done]. by rewrite IH.
Qed.

Lemma WeatherResponse_fields_NoDup : NoDup WeatherResponse_fields.*1.
Proof. by apply (bool_decide_unpack _). Qed.

Lemma WeatherResponse_instance data r :
  WeatherResponse data = Ok r → instance_of WeatherResponse_fields r.
Proof.
  intros Hr. split; [by eapply BaseModel_init_dom|].
  intros name t Hin.
  destruct (BaseModel_init_lookup _ _ _ _ _ WeatherResponse_fields_NoDup Hr Hin)
    as (v & v' & _ & Hv & Hl).
  exists v'. split; [done|]. by eapply validate_field_has_type.
Qed.

End Schema.

(** ** The finalizers *)

Section Finalizers.
Context {chat : ChatOpenAI} {pyd : Pydantic}.

Lemma respond1_Ok st u :
  Option1.respond st = Ok u →
  ∃ last_message tcs tc r,
    getitem_back (messages st) 0 = Ok last_message ∧
    tool_calls last_message = Ok tcs ∧
    tcs !! 0 = Some tc ∧
    WeatherResponse (tc_args tc) = Ok r ∧
    u = {| upd_messages := [ToolMessage "Here is your structured response" (tc_id tc)];
           upd_final_response := Some r |}.
Proof.
  unfold Option1.respond. intros Hu. inv_bind Hu. injection Hu as <-.
  match goal with Hg : getitem _ 0 = Ok _ |- _ =>
    unfold getitem, of_option in Hg; destruct (_ !! 0) eqn:Hl; [injection Hg as ->|done]
  end.
  by repeat eexists.
Qed.

Lemma respond2_Ok st u :
  Option2.respond st = Ok u →
  ∃ input raw r,
    Option2.respond_input st = Ok input ∧
    chat_structured input = Ok raw ∧
    WeatherResponse raw = Ok r ∧
    u = {| upd_messages := []; upd_final_response := Some r |}.
Proof.
  unfold Option2.respond, model_with_structured_output. intros Hu.
  inv_bind Hu. injection Hu as <-.
  match goal with Hm : _ ≫= _ = Ok _ |- _ => inv_bind Hm end.
  by repeat eexists.
Qed.

Lemma run_respond g fuel st :
  run g (S fuel) N_respond st =
  match node_respond g st with
  | Ok u => Finished (apply_update st u)
  | Raise e => Failed e
  end.
Proof. simpl. destruct (node_respond g st); simpl; [apply run_END|done]. Qed.

End Finalizers.

Section SchemaConformance.
Context {chat : ChatOpenAI} {pyd : Pydantic}.

Implicit Types (st : AgentState) (data r : kwargs).

(** C3 (amended). Whenever a finalizer returns, the record it stores is an
    instance of the schema: exactly the attributes [temperature],
    [wind_directon], [wind_speed], typed float, string, float, each obtained
    by validating the argument of the same name; when it raises, the run
    fails and returns no state.  Construction is all-or-nothing: a missing
    or ill-typed argument for any declared field is a validation error, never
    a partial record, and arguments valid for all three fields do give a
    record (a float, a string and a float are kept as they are).  Argument
    keys that name no field are ignored, not rejected: they do not change the
    result. *)
Theorem finalizer_instance_or_failure st data :
  (∀ u, Option1.respond st = Ok u ∨ Option2.respond st = Ok u →
     ∃ r, upd_final_response u = Some r ∧ instance_of WeatherResponse_fields r) ∧
  (∀ fuel e, Option1.respond st = Raise e →
     run Option1.graph (S fuel) N_respond st = Failed e) ∧
  (∀ fuel e, Option2.respond st = Raise e →
     run Option2.graph (S fuel) N_respond st = Failed e) ∧
  (WeatherResponse data = Raise ValidationError ∨
   ∃ r, WeatherResponse data = Ok r ∧ instance_of WeatherResponse_fields r ∧
     ∀ name t, (name, t) ∈ WeatherResponse_fields →
       ∃ v, data !! name = Some v ∧ validate_field t v = r !! name) ∧
  (∀ name t, (name, t) ∈ WeatherResponse_fields →
     data !! name ≫= validate_field t = None →
     WeatherResponse data = Raise ValidationError) ∧
  ((∀ name t, (name, t) ∈ WeatherResponse_fields →
      is_Some (data !! name ≫= validate_field t)) →
   ∃ r, WeatherResponse data = Ok r) ∧
  (∀ t d s,
     data !! "temperature" = Some (PFloat t) →
     data !! "wind_directon" = Some (PStr d) →
     data !! "wind_speed" = Some (PFloat s) →
     WeatherResponse data =
     Ok (<["temperature" := PFloat t]>
           (<["wind_directon" := PStr d]> (<["wind_speed" := PFloat s]> ∅)))) ∧
  (∀ k v, k ∉ WeatherResponse_fields.*1 →
     WeatherResponse (<[k := v]> data) = WeatherResponse data).
Proof.
  split_and!.
  - intros u [Hu|Hu].
    + apply respond1_Ok in Hu as (? & ? & ? & r & _ & _ & _ & Hr & ->).
      exists r. split; [done|]. by eapply WeatherResponse_instance.
    + apply respond2_Ok in Hu as (? & ? & r & _ & _ & Hr & ->).
      exists r. split; [done|]. by eapply WeatherResponse_instance.
  - intros fuel e He. rewrite run_respond. simpl. by rewrite He.
  - intros fuel e He. rewrite run_respond. simpl. by rewrite He.
  - destruct (WeatherResponse data) as [r|e] eqn:Hr.
    + right. exists r. split_and!; [done|by eapply WeatherResponse_instance|].
      intros name t Hin.
      destruct (BaseModel_init_lookup _ _ _ _ _ WeatherResponse_fields_NoDup Hr Hin)
        as (v & v' & ? & ? & ?).
      exists v. split; congruence.
    + left. by rewrite (BaseModel_init_Raise _ _ _ Hr).
  - intros name t Hin Hbad. by eapply BaseModel_init_invalid.
  - apply BaseModel_init_total.
  - intros t d s Ht Hd Hs. unfold WeatherResponse. simpl.
    rewrite Ht, Hd, Hs. simpl.
    by rewrite !float_validator_float, str_validator_str.
  - intros k v Hk. by apply BaseModel_init_extra.
Qed.

(** C10. The schema's wind-direction field is spelled [wind_directon].
    Every record a finalizer stores has an attribute of that name, a string
    validated from the argument [wind_directon], and has no attribute
    [wind_direction]; arguments that carry no key [wind_directon] (for
    instance because they spell it [wind_direction]) are refused. *)
Theorem wind_directon_is_the_field_name st data :
  WeatherResponse_fields.*1 = ["temperature"; "wind_directon"; "wind_speed"] ∧
  (∀ u r, Option1.respond st = Ok u ∨ Option2.respond st = Ok u →
     upd_final_response u = Some r →
     is_Some (r !! "wind_directon") ∧ r !! "wind_direction" = None) ∧
  (∀ r, WeatherResponse data = Ok r →
     r !! "wind_direction" = None ∧
     ∃ s, r !! "wind_directon" = Some (PStr s) ∧
          data !! "wind_directon" ≫= str_validator = Some s) ∧
  (data !! "wind_directon" = None →
     WeatherResponse data = Raise ValidationError).
Proof.
  assert (∀ d r, WeatherResponse d = Ok r →
     r !! "wind_direction" = None ∧
     ∃ s, r !! "wind_directon" = Some (PStr s) ∧
          d !! "wind_directon" ≫= str_validator = Some s) as Hrec.
  { intros d r Hr. split.
    - apply not_elem_of_dom.
      rewrite (BaseModel_init_dom _ _ _ Hr), elem_of_list_to_set.
      by apply (bool_decide_unpack _).
    - destruct (BaseModel_init_lookup _ _ _ "wind_directon" StrField
                  WeatherResponse_fields_NoDup Hr) as (v & v' & Hd & Hv & Hl).
      { by right; left. }
      simpl in Hv. apply fmap_Some in Hv as (s & Hs & ->).
      exists s. split; [done|]. by rewrite Hd. }
  split_and!.
  - done.
  - intros u r [Hu|Hu] Hfr.
    + apply respond1_Ok in Hu as (? & ? & ? & r' & _ & _ & _ & Hr & ->).
      injection Hfr as ->. destruct (Hrec _ _ Hr) as (? & s & -> & _). eauto.
    + apply respond2_Ok in Hu as (? & ? & r' & _ & _ & Hr & ->).
      injection Hfr as ->. destruct (Hrec _ _ Hr) as (? & s & -> & _). eauto.
  - apply Hrec.
  - intros Hmiss. apply (BaseModel_init_invalid _ _ "wind_directon" StrField).
    + by right; left.
    + by rewrite Hmiss.
Qed.

(** C9. Option 2's finalizer returns an update with no message: merging it
    leaves the log as the router saw it and only sets [final_response]; the
    run ends there with that same log.  Option 1's finalizer, by contrast,
    appends one synthesized tool message. *)
Theorem respond2_leaves_log_unchanged st :
  (∀ u, Option2.respond st = Ok u →
     upd_messages u = [] ∧
     messages (apply_update st u) = messages st ∧
     is_Some (final_response (apply_update st u))) ∧
  (∀ st', runs Option2.graph N_respond st (Ok st') →
     messages st' = messages st ∧ is_Some (final_response st')) ∧
  (∀ fuel st', run Option2.graph fuel N_respond st = Finished st' →
     messages st' = messages st) ∧
  (∀ u, Option1.respond st = Ok u →
     ∃ i, messages (apply_update st u) =
          messages st ++ [ToolMessage "Here is your structured response" i]).
Proof.
  assert (∀ u, Option2.respond st = Ok u →
     upd_messages u = [] ∧
     messages (apply_update st u) = messages st ∧
     is_Some (final_response (apply_update st u))) as Hupd.
  { intros u Hu. apply respond2_Ok in Hu as (? & ? & r & _ & _ & _ & ->).
    simpl. rewrite app_nil_r. eauto. }
  split_and!.
  - done.
  - intros st' Hruns. inversion Hruns as [| |n s n' s' o _ Hstep Hrest]; subst.
    simpl in Hstep. inv_bind Hstep. injection Hstep as <- <-.
    inversion Hrest as [s| |]; subst; [|done..].
    match goal with Hr : _ = Ok ?u |- context [apply_update _ ?u] =>
      destruct (Hupd _ Hr) as (_ & ? & ?) end.
    done.
  - intros [|fuel] st' Hrun; [done|].
    rewrite run_respond in Hrun. simpl in Hrun.
    destruct (Option2.respond st) as [u|] eqn:Hu; [|done].
    injection Hrun as <-. by destruct (Hupd _ eq_refl) as (_ & ? & _).
  - intros u Hu. apply respond1_Ok in Hu as (? & ? & tc & ? & _ & _ & _ & _ & ->).
    by exists (tc_id tc).
Qed.

End SchemaConformance.

(** ** The schema on concrete arguments *)

Lemma WeatherResponse_humidity :
  WeatherResponse (pyd := exact_types) args_with_humidity =
  Ok (list_to_map recorded_args).
Proof. vm_compute. reflexivity. Qed.

(** C3, as stated, fails: arguments with the extra key [humidity] are not
    rejected; the record is built from the three declared fields. *)
Lemma unknown_field_is_not_rejected :
  ¬ strict_validation (pyd := exact_types) args_with_humidity.
Proof.
  unfold strict_validation. rewrite WeatherResponse_humidity.
  intros [_ Honly].
  assert ("humidity" ∈ dom args_with_humidity) as Hin.
  { apply elem_of_dom. exists (PInt 80). vm_compute. reflexivity. }
  apply Honly in Hin. revert Hin. by apply (bool_decide_unpack _).
Qed.

Lemma respond1_recorded :
  Option1.respond (pyd := exact_types) state_before_respond1 =
  Ok {| upd_messages := [ToolMessage "Here is your structured response" "call_2"];
        upd_final_response := Some (list_to_map recorded_args) |}.
Proof. vm_compute. reflexivity. Qed.

Lemma respond2_recorded :
  Option2.respond (chat := replayed_model) (pyd := exact_types) state_after_tool_round =
  Ok {| upd_messages := [];
        upd_final_response := Some (list_to_map recorded_args) |}.
Proof. vm_compute. reflexivity. Qed.

Lemma finalizer_instance_or_failure_witness :
  (∃ r, upd_final_response
          {| upd_messages := [ToolMessage "Here is your structured response" "call_2"];
             upd_final_response := Some (list_to_map recorded_args) |} = Some r ∧
        instance_of WeatherResponse_fields r) ∧
  WeatherResponse (pyd := exact_types) (<["humidity" := PInt 80]> (list_to_map recorded_args)) =
  WeatherResponse (pyd := exact_types) (list_to_map recorded_args).
Proof.
  destruct (finalizer_instance_or_failure (chat := replayed_model) (pyd := exact_types)
              state_before_respond1 (list_to_map recorded_args))
    as (Hinst & _ & _ & _ & _ & _ & _ & Hextra).
  split.
  - apply Hinst. left. exact respond1_recorded.
  - apply Hextra. by apply (bool_decide_unpack _).
Defined.

Lemma WeatherResponse_wind_direction :
  WeatherResponse (pyd := exact_types) args_wind_direction = Raise ValidationError.
Proof. vm_compute. reflexivity. Qed.

Lemma wind_directon_is_the_field_name_witness :
  (list_to_map recorded_args : kwargs) !! "wind_direction" = None ∧
  WeatherResponse (pyd := exact_types) args_wind_direction = Raise ValidationError.
Proof.
  destruct (wind_directon_is_the_field_name (chat := replayed_model) (pyd := exact_types)
              state_before_respond1 args_wind_direction)
    as (_ & Hrec & _ & Hmiss).
  split.
  - eapply Hrec; [left; exact respond1_recorded|done].
  - apply Hmiss. vm_compute. reflexivity.
Defined.

Lemma respond2_leaves_log_unchanged_witness :
  messages
    (apply_update state_after_tool_round
       {| upd_messages := []; upd_final_response := Some (list_to_map recorded_args) |}) =
  messages state_after_tool_round.
Proof.
  destruct (respond2_leaves_log_unchanged (chat := replayed_model) (pyd := exact_types)
              state_after_tool_round) as (Hupd & _).
  destruct (Hupd _ respond2_recorded) as (_ & Hlog & _).
  exact Hlog.
Defined.

(** ** The input of Option 2's structured call *)

Lemma respond_input_eval log m last_message fr :
  Option2.respond_input (mkState (log ++ [m; last_message]) fr) =
  Ok [HumanMessage (content m)].
Proof. unfold Option2.respond_input. simpl. by rewrite getitem_back_second. Qed.

Lemma last_tool_result_snoc_ai log text tcs :
  last_tool_result (log ++ [AIMessage text tcs]) = last_tool_result log.
Proof. unfold last_tool_result. by rewrite reverse_snoc. Qed.

Lemma last_tool_result_snoc_tool log text i :
  last_tool_result (log ++ [ToolMessage text i]) = Some text.
Proof. unfold last_tool_result. by rewrite reverse_snoc. Qed.

(** X1. After a tool round (the log ends with a tool message followed by the
    assistant's closing message) the structured call of Option 2's finalizer
    gets exactly one human message, holding the content of the most recent
    tool result. *)
Theorem respond_input_after_tool_round log result_text i text fr :
  let st := mkState (log ++ [ToolMessage result_text i; AIMessage text []]) fr in
  Option2.respond_input st = Ok [HumanMessage result_text] ∧
  last_tool_result (messages st) = Some result_text.
Proof.
  intros st. subst st. split; [by rewrite respond_input_eval|]. simpl.
  replace (log ++ [ToolMessage result_text i; AIMessage text []])
    with ((log ++ [ToolMessage result_text i]) ++ [AIMessage text []])
    by by rewrite <- app_assoc.
  by rewrite last_tool_result_snoc_ai, last_tool_result_snoc_tool.
Qed.

(** C5. On the seed "hello", answered by the model in plain text, the router
    sends the state to the finalizer, whose structured call gets one human
    message holding the seed's text: the log has no tool result at all, and
    [messages[-2]] is the human message. *)
Theorem respond_input_is_not_a_tool_result :
  step (Option2.graph (chat := chatty_model) (pyd := exact_types)) N_agent (initial_state "hello") =
    Ok (N_respond, state_without_tool_round) ∧
  Option2.respond_input state_without_tool_round = Ok [HumanMessage "hello"] ∧
  last_tool_result (messages state_without_tool_round) = None ∧
  run (Option2.graph (chat := chatty_model) (pyd := exact_types)) 2 N_agent (initial_state "hello") =
    Finished (mkState (messages state_without_tool_round) (Some (list_to_map recorded_args))).
Proof.
  split_and!.
  - vm_compute. reflexivity.
  - apply (respond_input_eval [] (HumanMessage "hello")).
  - reflexivity.
  - vm_compute. reflexivity.
Qed.

(** ** Runs *)

Section Runs.
Context (g : StateGraph).

(** A bounded run that ends is a run of the graph. *)
Lemma run_runs fuel n st :
  match run g fuel n st with
  | Finished st' => runs g n st (Ok st')
  | Failed e => runs g n st (Raise e)
  | OutOfFuel => True
  end.
Proof.
  revert n st. induction fuel as [|fuel IH]; intros n st.
  - destruct n; simpl; try done. constructor.
  - destruct (decide (n = END)) as [->|Hn]; [simpl; constructor|].
    assert (run g (S fuel) n st =
            match step g n st with
            | Raise e => Failed e
            | Ok (n', st') => run g fuel n' st'
            end) as -> by by destruct n.
    destruct (step g n st) as [[n' st']|e] eqn:Hs.
    + specialize (IH n' st').
      destruct (run g fuel n' st'); try done; by eapply runs_step.
    + by apply runs_raise.
Qed.

(** A run that ends does so within some bound. *)
Lemma runs_run n st o :
  runs g n st o →
  ∃ fuel, run g fuel n st =
          match o with Ok st' => Finished st' | Raise e => Failed e end.
Proof.
  induction 1 as [st|n st e Hn Hs|n st n' st' o Hn Hs Hr [fuel IH]].
  - by exists 0.
  - exists 1. destruct n; simpl in *; try done; by rewrite Hs.
  - exists (S fuel). destruct n; try done; simpl in *; by rewrite Hs.
Qed.

End Runs.

Lemma invoke1_replayed_4 :
  invoke (Option1.graph (chat := replayed_model) (pyd := exact_types)) 4
    lille_seed = Finished (list_to_map recorded_args).
Proof. vm_compute. reflexivity. Qed.

(** ** Single transitions *)

Section Steps.
Context {chat : ChatOpenAI} {pyd : Pydantic}.

Implicit Types (st : AgentState) (tcs : list ToolCall) (log : list Message).

Lemma run_unfold g fuel n st :
  n ≠ END →
  run g (S fuel) n st =
  match step g n st with
  | Raise e => Failed e
  | Ok (n', st') => run g fuel n' st'
  end.
Proof. by destruct n. Qed.

Lemma step_agent1 st :
  step Option1.graph N_agent st =
  match Option1.model_with_response_tool (messages st) with
  | Ok (text, tcs) =>
      Ok (route1 tcs, mkState (messages st ++ [AIMessage text tcs]) (final_response st))
  | Raise e => Raise e
  end.
Proof.
  simpl. unfold Option1.call_model.
  destruct (Option1.model_with_response_tool (messages st)) as [[text tcs]|e]; [|done].
  simpl. unfold apply_update. simpl. rewrite should_continue1_eval.
  destruct tcs as [|tc [|tc' rest]]; simpl; try done.
  by case_bool_decide.
Qed.

Lemma step_agent2 st :
  step Option2.graph N_agent st =
  match model_with_tools (messages st) with
  | Ok (text, tcs) =>
      Ok (route2 tcs, mkState (messages st ++ [AIMessage text tcs]) (final_response st))
  | Raise e => Raise e
  end.
Proof.
  simpl. unfold Option2.call_model.
  destruct (model_with_tools (messages st)) as [[text tcs]|e]; [|done].
  simpl. unfold apply_update. simpl. rewrite should_continue2_eval.
  by destruct tcs.
Qed.

Lemma ToolNode_eval registry log text tcs fr :
  ToolNode registry (mkState (log ++ [AIMessage text tcs]) fr) =
  match execute_calls registry tcs with
  | Ok results => Ok {| upd_messages := results; upd_final_response := None |}
  | Raise e => Raise e
  end.
Proof.
  unfold ToolNode. simpl. rewrite getitem_back_last. simpl.
  by destruct (execute_calls registry tcs).
Qed.

Lemma execute_calls_app registry tcs1 tcs2 :
  execute_calls registry (tcs1 ++ tcs2) =
  ms1 ← execute_calls registry tcs1;
  ms2 ← execute_calls registry tcs2;
  Ok (ms1 ++ ms2).
Proof.
  induction tcs1 as [|tc tcs1 IH]; simpl.
  - by destruct (execute_calls registry tcs2).
  - destruct (execute_call registry tc) as [m|e]; simpl; [|done].
    rewrite IH. destruct (execute_calls registry tcs1) as [ms1|]; simpl; [|done].
    by destruct (execute_calls registry tcs2).
Qed.

(** Each result answers its call: same position, same identifier. *)
Lemma execute_calls_answers registry tcs results :
  execute_calls registry tcs = Ok results →
  Forall2 (λ tc m, ∃ text, m = ToolMessage text (tc_id tc)) tcs results.
Proof.
  revert results. induction tcs as [|tc tcs IH]; simpl; intros results Hr.
  - injection Hr as <-. constructor.
  - inv_bind Hr. injection Hr as <-. constructor; [|by apply IH].
    match goal with Hc : execute_call _ _ = Ok _ |- _ =>
      unfold execute_call in Hc;
      destruct (find _ registry) as [t|]; [|done];
      destruct (tool_accepts t _); [|done];
      destruct (tool_invoke t _) as [text|]; [|done];
      injection Hc as <- end.
    by eexists.
Qed.

Lemma get_weather_unknown city :
  city ∉ supported_cities →
  get_weather city = Raise (AssertionError "Unknown city").
Proof.
  intros Hcity. unfold get_weather.
  destruct city as [| | | |s| |]; simpl; try done.
  repeat case_bool_decide; subst; try done; exfalso; apply Hcity;
    unfold supported_cities; set_solver.
Qed.

Lemma in_literal_supported city :
  in_literal city = true ↔ city ∈ supported_cities.
Proof.
  unfold in_literal, supported_cities. split.
  - destruct city as [| | | |s| |]; simpl; try done.
    repeat case_bool_decide; subst; simpl; try done; intros _.
    + by left.
    + by right; left.
    + by do 2 right; left.
  - intros Hin.
    repeat (apply elem_of_cons in Hin as [->|Hin]; [done|]).
    by apply elem_of_nil in Hin.
Qed.

Lemma execute_call_get_weather registry args city i :
  args !! "city" = Some city →
  execute_call (get_weather_tool :: registry) (mkToolCall "get_weather" args i) =
  if in_literal city then
    match get_weather city with
    | Ok text => Ok (ToolMessage text i)
    | Raise e => Raise (ToolExecutionError e)
    end
  else Raise (ToolArgumentError "get_weather").
Proof.
  intros Hcity. unfold execute_call. simpl. rewrite Hcity. simpl.
  by destruct (in_literal city).
Qed.

End Steps.

(** ** Scenario B: a city the tool does not know *)

Lemma invoke1_london :
  invoke (Option1.graph (chat := london_model) (pyd := exact_types)) 2
    "what's the weather in London?" = Failed (ToolArgumentError "get_weather").
Proof. vm_compute. reflexivity. Qed.

(** C6, as stated, fails: with a model that requests the weather of london,
    the invocation does not fail with the body's assertion error as a tool
    execution error.  The call violates the tool's argument contract and is
    refused before the body runs. *)
Lemma unknown_city_never_reaches_the_body :
  ¬ scenario_B (chat := london_model) (pyd := exact_types)
      "what's the weather in London?" (PStr "london").
Proof.
  intros [_ Hfails]. specialize (Hfails 0). change (2 + 0) with 2 in Hfails.
  rewrite invoke1_london in Hfails. discriminate Hfails.
Qed.

Section UnknownCity.
Context {chat : ChatOpenAI} {pyd : Pydantic}.

Lemma run_tools_failure g fuel st st' e :
  step g N_agent st = Ok (N_tools, st') →
  node_tools g st' = Raise e →
  (∀ fuel', run g (2 + fuel') N_agent st = Failed e) ∧
  ∀ st'', run g fuel N_agent st ≠ Finished st''.
Proof.
  intros Hagent Htools.
  assert (step g N_tools st' = Raise e) as Hstep by (simpl; by rewrite Htools).
  split.
  - intros fuel'. change (2 + fuel') with (S (S fuel')).
    rewrite run_unfold by done. rewrite Hagent.
    rewrite run_unfold by done. by rewrite Hstep.
  - intros st''. destruct fuel as [|[|fuel']]; [done| |].
    + rewrite run_unfold by done. by rewrite Hagent.
    + rewrite run_unfold by done. rewrite Hagent.
      rewrite run_unfold by done. by rewrite Hstep.
Qed.

Lemma execute_call_unknown_city registry args city i :
  city ∉ supported_cities →
  args !! "city" = Some city →
  execute_call (get_weather_tool :: registry) (mkToolCall "get_weather" args i) =
  Raise (ToolArgumentError "get_weather").
Proof.
  intros Hcity Hargs. rewrite (execute_call_get_weather _ _ city) by done.
  destruct (in_literal city) eqn:Hlit; [|done].
  by apply in_literal_supported in Hlit.
Qed.

Lemma execute_calls_unknown_city registry before after results args city i :
  city ∉ supported_cities →
  args !! "city" = Some city →
  execute_calls (get_weather_tool :: registry) before = Ok results →
  execute_calls (get_weather_tool :: registry)
    (before ++ mkToolCall "get_weather" args i :: after) =
  Raise (ToolArgumentError "get_weather").
Proof.
  intros Hcity Hargs Hbefore. rewrite execute_calls_app, Hbefore. simpl.
  by rewrite (execute_call_unknown_city _ _ city).
Qed.

(** C6 (amended). For every city outside paris, lille, marseille, the body
    of [get_weather] raises the assertion error "Unknown city" when it is
    called with that city.  A tool call that carries such a city (whatever
    other arguments come with it) violates the tool's argument contract, the
    [Literal] annotation of [city]: the call is refused with
    [ToolArgumentError] and the body is not run.  When a turn of the model
    requests it (the requests before it in the same message having been
    executed), the run from that turn fails with [ToolArgumentError], and no
    bound lets the run finish: no state, hence no [final_response], is
    returned.  This holds for both graphs. *)
Theorem unknown_city_is_refused_by_the_contract
    (st : AgentState) (args : kwargs) (city : pyval) (text i : string)
    (before after : list ToolCall) (results : list Message) :
  let request := before ++ mkToolCall "get_weather" args i :: after in
  let failure := ToolArgumentError "get_weather" in
  city ∉ supported_cities →
  args !! "city" = Some city →
  execute_calls Option1.tools before = Ok results →
  get_weather city = Raise (AssertionError "Unknown city") ∧
  tool_accepts get_weather_tool args = false ∧
  execute_call Option1.tools (mkToolCall "get_weather" args i) = Raise failure ∧
  (Option1.model_with_response_tool (messages st) = Ok (text, request) →
     (∀ fuel, run Option1.graph (2 + fuel) N_agent st = Failed failure) ∧
     (∀ fuel st', run Option1.graph fuel N_agent st ≠ Finished st')) ∧
  (model_with_tools (messages st) = Ok (text, request) →
     (∀ fuel, run Option2.graph (2 + fuel) N_agent st = Failed failure) ∧
     (∀ fuel st', run Option2.graph fuel N_agent st ≠ Finished st')).
Proof.
  intros request failure Hcity Hargs Hbefore.
  assert (execute_calls Option1.tools request = Raise failure) as Hexec
    by by eapply execute_calls_unknown_city.
  split_and!.
  - by apply get_weather_unknown.
  - simpl. rewrite Hargs. apply not_true_is_false.
    by intros Hlit%in_literal_supported.
  - by eapply execute_call_unknown_city.
  - intros Hmodel.
    assert (route1 request = N_tools) as Hroute.
    { subst request. destruct before as [|b1 [|b2 before]]; simpl; try done.
      by destruct after. }
    pose proof (step_agent1 st) as Hagent. rewrite Hmodel, Hroute in Hagent.
    assert (node_tools Option1.graph
              (mkState (messages st ++ [AIMessage text request]) (final_response st)) =
            Raise failure) as Htools.
    { simpl. by rewrite ToolNode_eval, Hexec. }
    split.
    + intros fuel. by eapply (run_tools_failure _ 0).
    + intros fuel st'. by eapply run_tools_failure.
  - intros Hmodel.
    assert (route2 request = N_tools) as Hroute.
    { subst request. by destruct before. }
    pose proof (step_agent2 st) as Hagent. rewrite Hmodel, Hroute in Hagent.
    assert (node_tools Option2.graph
              (mkState (messages st ++ [AIMessage text request]) (final_response st)) =
            Raise failure) as Htools.
    { simpl. rewrite ToolNode_eval.
      change Option2.tools with Option1.tools. by rewrite Hexec. }
    split.
    + intros fuel. by eapply (run_tools_failure _ 0).
    + intros fuel st'. by eapply run_tools_failure.
Qed.

End UnknownCity.

Lemma london_is_not_supported : PStr "london" ∉ supported_cities.
Proof.
  unfold supported_cities. intros Hin.
  repeat (apply elem_of_cons in Hin as [Hin|Hin]; [done|]).
  by apply elem_of_nil in Hin.
Qed.

Lemma london_args_city :
  (list_to_map [("city", PStr "london")] : kwargs) !! "city" = Some (PStr "london").
Proof. vm_compute. reflexivity. Qed.

Lemma unknown_city_is_refused_by_the_contract_witness :
  get_weather (PStr "london") = Raise (AssertionError "Unknown city") ∧
  invoke (Option1.graph (chat := london_model) (pyd := exact_types)) 2
    "what's the weather in London?" = Failed (ToolArgumentError "get_weather").
Proof.
  destruct (unknown_city_is_refused_by_the_contract
              (chat := london_model) (pyd := exact_types)
              (initial_state "what's the weather in London?")
              (list_to_map [("city", PStr "london")])
              (PStr "london") "" "call_1" [] [] []
              london_is_not_supported london_args_city eq_refl)
    as (Hbody & _ & _ & Hrun1 & _).
  split; [exact Hbody|].
  destruct (Hrun1 eq_refl) as [Hfail _].
  unfold invoke. change 2 with (2 + 0). by rewrite (Hfail 0).
Defined.

(** ** Scenario A: the weather in Lille *)

(** C7, as stated, fails: with a model that requests the Lille weather and
    then answers with the arguments the notebook's own output cell records,
    the invocation returns wind direction "N" and wind speed 15, not "SE" and
    about 4.8. *)
Lemma scenario_A_is_the_models_choice :
  ¬ scenario_A (chat := replayed_model) (pyd := exact_types).
Proof.
  intros [_ Hrecord].
  destruct (Hrecord 4 _ invoke1_replayed_4) as (t & d & s & _ & Hd & _ & _ & -> & _).
  vm_compute in Hd. discriminate Hd.
Qed.

Section ScenarioA.
Context {chat : ChatOpenAI} {pyd : Pydantic}.

Lemma respond1_eval log text tc fr :
  Option1.respond (mkState (log ++ [AIMessage text [tc]]) fr) =
  match WeatherResponse (tc_args tc) with
  | Ok r =>
      Ok {| upd_messages := [ToolMessage "Here is your structured response" (tc_id tc)];
            upd_final_response := Some r |}
  | Raise e => Raise e
  end.
Proof.
  unfold Option1.respond. simpl. rewrite getitem_back_last. simpl.
  by destruct (WeatherResponse (tc_args tc)).
Qed.

(** C7 (amended). [get_weather("lille")] returns the description that
    mentions 65 degrees and 3 mph winds in the South-East direction.  When
    the model requests that call on the seed and, shown the description,
    answers with a sole [WeatherResponse] call, the invocation returns
    exactly the record validated from that call's arguments (or fails with
    the validation error): the graph derives no field of its own. *)
Theorem scenario_A_returns_the_models_arguments
    (text1 text2 i1 i2 : string) (args : kwargs) :
  let request := mkToolCall "get_weather" {["city" := PStr "lille"]} i1 in
  let answer := mkToolCall "WeatherResponse" args i2 in
  Option1.model_with_response_tool [HumanMessage lille_seed] = Ok (text1, [request]) →
  Option1.model_with_response_tool
    [HumanMessage lille_seed; AIMessage text1 [request];
     ToolMessage lille_description i1] = Ok (text2, [answer]) →
  get_weather (PStr "lille") = Ok lille_description ∧
  mentions "65 degrees" lille_description = true ∧
  mentions "3 mph" lille_description = true ∧
  mentions "South-East" lille_description = true ∧
  ∀ fuel, invoke Option1.graph (4 + fuel) lille_seed =
          match WeatherResponse args with
          | Ok r => Finished r
          | Raise e => Failed e
          end.
Proof.
  intros request answer Hturn1 Hturn2.
  split_and!; [reflexivity..|].
  intros fuel. unfold invoke. change (4 + fuel) with (S (S (S (S fuel)))).
  rewrite run_unfold by done. rewrite step_agent1.
  change (messages (initial_state lille_seed)) with [HumanMessage lille_seed].
  rewrite Hturn1. change (route1 [request]) with N_tools.
  rewrite run_unfold by done.
  change (step Option1.graph N_tools ?st) with
    (u ← ToolNode Option1.tools st; Ok (N_agent, apply_update st u)).
  rewrite ToolNode_eval.
  change (execute_calls Option1.tools [request]) with
    (m ← execute_call Option1.tools request; Ok [m]).
  unfold request at 2. unfold Option1.tools.
  rewrite (execute_call_get_weather _ _ (PStr "lille")) by apply lookup_singleton_eq.
  change (in_literal (PStr "lille")) with true. cbv iota.
  change (get_weather (PStr "lille")) with (Ok (A := string) lille_description).
  simpl mbind. unfold apply_update. simpl messages. simpl final_response.
  rewrite run_unfold by done. rewrite step_agent1. simpl messages.
  rewrite Hturn2. change (route1 [answer]) with N_respond.
  rewrite run_respond. simpl node_respond.
  pose proof (respond1_eval
    [HumanMessage lille_seed; AIMessage text1 [request];
     ToolMessage lille_description i1] text2 answer None) as Hrespond.
  cbn [app] in Hrespond. rewrite Hrespond. simpl tc_args.
  destruct (WeatherResponse args) as [r|e]; done.
Qed.

End ScenarioA.

Lemma scenario_A_returns_the_models_arguments_witness :
  get_weather (PStr "lille") = Ok lille_description ∧
  invoke (Option1.graph (chat := replayed_model) (pyd := exact_types)) 4 lille_seed =
  match WeatherResponse (pyd := exact_types) (list_to_map recorded_args) with
  | Ok r => Finished r
  | Raise e => Failed e
  end.
Proof.
  destruct (scenario_A_returns_the_models_arguments
              (chat := replayed_model) (pyd := exact_types)
              "" "" "call_1" "call_2" (list_to_map recorded_args) eq_refl eq_refl)
    as (Htool & _ & _ & _ & Hrun).
  split; [exact Htool|exact (Hrun 0)].
Defined.

(** ** The pairing invariant *)

Section Pairing.

Implicit Types (log results : list Message) (tcs : list ToolCall) (i : string).

Lemma results_before_next_ai_app_ai i log text tcs rest :
  results_before_next_ai i (log ++ AIMessage text tcs :: rest) =
  results_before_next_ai i log.
Proof.
  induction log as [|m log IH]; simpl; [done|].
  destruct m; simpl; by rewrite ?IH.
Qed.

Lemma forallb_pointwise {A} (f g : A → bool) (l : list A) :
  (∀ x, f x = g x) → forallb f l = forallb g l.
Proof. intros Hfg. induction l as [|x l IH]; simpl; [done|]. by rewrite Hfg, IH. Qed.

Lemma paired_app_ai log text tcs rest :
  paired (log ++ AIMessage text tcs :: rest) =
  paired log && paired (AIMessage text tcs :: rest).
Proof.
  induction log as [|m log IH]; [done|].
  destruct m as [c|c tcs0|c j]; simpl in *; try done.
  rewrite IH, andb_assoc. f_equal. f_equal.
  apply forallb_pointwise. intros tc. by rewrite results_before_next_ai_app_ai.
Qed.

Lemma paired_snoc_ai_nil log text :
  paired (log ++ [AIMessage text []]) = paired log.
Proof. rewrite paired_app_ai. simpl. by rewrite andb_true_r. Qed.

Lemma filter_absent i (ids : list string) :
  i ∉ ids → filter (λ j, i = j) ids = [].
Proof.
  induction ids as [|j ids IH]; [done|].
  intros [Hne Hni]%not_elem_of_cons. rewrite filter_cons_False by done. auto.
Qed.

Lemma occurs_once i (ids : list string) :
  NoDup ids → i ∈ ids → length (filter (λ j, i = j) ids) = 1.
Proof.
  induction 1 as [|j ids Hfresh Hnd IH]; intros Hin.
  - by apply elem_of_nil in Hin.
  - rewrite filter_cons. case_decide as Hij.
    + subst j. simpl. by rewrite filter_absent.
    + apply IH. apply elem_of_cons in Hin as [?|?]; done.
Qed.

Lemma answers_count i tcs results :
  Forall2 (λ tc m, ∃ text, m = ToolMessage text (tc_id tc)) tcs results →
  results_before_next_ai i results = length (filter (λ j, i = j) (tc_id <$> tcs)).
Proof.
  induction 1 as [|tc m tcs' results' [text ->] _ IH]; [done|].
  rewrite fmap_cons, filter_cons. simpl. rewrite IH.
  case_bool_decide; case_decide; done.
Qed.

Lemma answers_paired tcs results :
  Forall2 (λ tc m, ∃ text, m = ToolMessage text (tc_id tc)) tcs results →
  paired results = true.
Proof. induction 1 as [|tc m tcs' results' [text ->] _ IH]; done. Qed.

Lemma paired_answered text tcs results :
  Forall2 (λ tc m, ∃ text, m = ToolMessage text (tc_id tc)) tcs results →
  NoDup (tc_id <$> tcs) →
  paired (AIMessage text tcs :: results) = true.
Proof.
  intros Hanswers Hnd. simpl. rewrite (answers_paired tcs), andb_true_r by done.
  apply forallb_forall. intros tc Hin%list_elem_of_In.
  rewrite (answers_count _ tcs) by done.
  rewrite occurs_once; [done|done|].
  apply list_elem_of_fmap. by exists tc.
Qed.

Context {chat : ChatOpenAI} {pyd : Pydantic} (Hids : unique_call_ids chat).

Lemma tools_step_paired registry st u :
  pending (λ _, True) st →
  ToolNode registry st = Ok u →
  paired (messages (apply_update st u)) = true.
Proof using Type.
  intros (log & text & tcs & Hlog & Hp & Hnd & _) Hu.
  destruct st as [msgs fr]. simpl in Hlog. subst msgs.
  rewrite ToolNode_eval in Hu.
  destruct (execute_calls registry tcs) as [results|] eqn:Hexec; [|done].
  injection Hu as <-. simpl. rewrite <- app_assoc. simpl.
  rewrite paired_app_ai, Hp. simpl andb.
  apply (paired_answered text); [|done]. exact (execute_calls_answers _ _ _ Hexec).
Qed.

Lemma inv1_step n st n' st' :
  inv1 n st → n ≠ END → step Option1.graph n st = Ok (n', st') → inv1 n' st'.
Proof using Hids.
  intros Hinv Hn Hstep. destruct n; [| | |done].
  - rewrite step_agent1 in Hstep.
    destruct (Option1.model_with_response_tool _) as [[text tcs]|] eqn:Hm; [|done].
    injection Hstep as <- <-.
    assert (pending (λ _, True)
              (mkState (messages st ++ [AIMessage text tcs]) (final_response st)))
      as Hpend.
    { exists (messages st), text, tcs. split_and!; try done. by eapply Hids. }
    destruct tcs as [|tc [|tc' rest]]; simpl; try done.
    case_bool_decide; [|done].
    destruct Hpend as (log & text' & tcs' & ? & ? & ? & _).
    exists log, text', tcs'. split_and!; try done.
    simplify_list_eq. by exists tc.
  - simpl in Hstep. inv_bind Hstep. injection Hstep as <- <-.
    by eapply tools_step_paired.
  - simpl in Hstep. inv_bind Hstep. injection Hstep as <- <-.
    destruct Hinv as (log & text & tcs & Hlog & Hp & _ & tc & -> & _).
    destruct st as [msgs fr]. simpl in Hlog. subst msgs.
    match goal with Hr : Option1.respond _ = Ok _ |- _ =>
      rewrite respond1_eval in Hr;
      destruct (WeatherResponse (tc_args tc)); [injection Hr as <-|done] end.
    simpl. rewrite <- app_assoc. simpl.
    rewrite paired_app_ai, Hp. simpl. by rewrite bool_decide_eq_true_2.
Qed.

Lemma inv2_step n st n' st' :
  inv2 n st → n ≠ END → step Option2.graph n st = Ok (n', st') → inv2 n' st'.
Proof using Hids.
  intros Hinv Hn Hstep. destruct n; [| | |done].
  - rewrite step_agent2 in Hstep.
    destruct (model_with_tools _) as [[text tcs]|] eqn:Hm; [|done].
    injection Hstep as <- <-.
    assert (NoDup (tc_id <$> tcs)) as Hnd by by eapply Hids.
    destruct tcs as [|tc rest]; simpl.
    + by exists (messages st), text, [].
    + by exists (messages st), text, (tc :: rest).
  - simpl in Hstep. inv_bind Hstep. injection Hstep as <- <-.
    by eapply tools_step_paired.
  - simpl in Hstep. inv_bind Hstep. injection Hstep as <- <-.
    destruct Hinv as (log & text & tcs & Hlog & Hp & _ & ->).
    match goal with Hr : Option2.respond _ = Ok _ |- _ =>
      apply respond2_Ok in Hr as (? & ? & ? & _ & _ & _ & ->) end.
    simpl. by rewrite app_nil_r, Hlog, paired_snoc_ai_nil.
Qed.

Lemma reachable1_inv seed n st : reachable Option1.graph seed n st → inv1 n st.
Proof using Hids. induction 1; [done|by eapply inv1_step]. Qed.

Lemma reachable2_inv seed n st : reachable Option2.graph seed n st → inv2 n st.
Proof using Hids. induction 1; [done|by eapply inv2_step]. Qed.

End Pairing.

(** C4. In a run of either graph from a seed, with a model that does not
    repeat an identifier within one message: whenever the log is about to be
    sent to the model, or the run has ended, every tool call of every
    assistant message is followed, before the next assistant message, by
    exactly one tool message carrying its identifier; in between, this holds
    of the log up to its last assistant message, whose calls the next node
    answers.  In Option 1 the finalizer runs on a message whose sole call is
    the [WeatherResponse] call, and appends a tool message carrying that
    call's identifier, which restores the pairing. *)
Theorem pairing_invariant {chat : ChatOpenAI} {pyd : Pydantic}
    (seed : string) (n : Node) (st : AgentState) :
  unique_call_ids chat →
  reachable Option1.graph seed n st ∨ reachable Option2.graph seed n st →
  (n = N_agent ∨ n = END → paired (messages st) = true) ∧
  (n = N_tools ∨ n = N_respond → pending (λ _, True) st) ∧
  (reachable Option1.graph seed N_respond st →
   ∀ u, Option1.respond st = Ok u →
     ∃ log text tc,
       messages st = log ++ [AIMessage text [tc]] ∧
       tc_name tc = "WeatherResponse" ∧
       upd_messages u = [ToolMessage "Here is your structured response" (tc_id tc)] ∧
       paired (messages (apply_update st u)) = true).
Proof.
  intros Hids Hreach.
  assert (pending sole_schema_call st → pending (λ _, True) st) as Hweak1.
  { intros (log & text & tcs & ? & ? & ? & _). by exists log, text, tcs. }
  assert (pending (λ tcs, tcs = []) st → pending (λ _, True) st) as Hweak2.
  { intros (log & text & tcs & ? & ? & ? & _). by exists log, text, tcs. }
  split_and!.
  - intros Hn. destruct Hreach as [Hr|Hr].
    + apply (reachable1_inv Hids) in Hr. by destruct Hn as [-> | ->].
    + apply (reachable2_inv Hids) in Hr. by destruct Hn as [-> | ->].
  - intros Hn. destruct Hreach as [Hr|Hr].
    + apply (reachable1_inv Hids) in Hr. destruct Hn as [-> | ->]; auto.
    + apply (reachable2_inv Hids) in Hr. destruct Hn as [-> | ->]; auto.
  - intros Hr u Hu.
    pose proof (reachable1_inv Hids _ _ _ Hr) as Hinv.
    assert (inv1 END (apply_update st u)) as Hend.
    { eapply (inv1_step Hids); [exact Hinv|done|]. simpl. by rewrite Hu. }
    destruct Hinv as (log & text & tcs & Hlog & _ & _ & tc & -> & Hname).
    exists log, text, tc. split_and!; try done.
    destruct st as [msgs fr]. simpl in Hlog. subst msgs.
    rewrite respond1_eval in Hu.
    destruct (WeatherResponse (tc_args tc)); [by injection Hu as <-|done].
Qed.

Lemma replayed_model_unique_ids : unique_call_ids replayed_model.
Proof.
  intros names tool_choice msgs text tcs. simpl.
  destruct msgs as [|m [|m' rest]]; intros [= <- <-]; simpl; apply NoDup_singleton.
Qed.

Lemma run_reachable g seed fuel n st st' :
  reachable g seed n st → run g fuel n st = Finished st' → reachable g seed END st'.
Proof.
  revert n st. induction fuel as [|fuel IH]; intros n st Hr Hrun.
  - destruct n; try done. by injection Hrun as <-.
  - destruct (decide (n = END)) as [->|Hn].
    + rewrite run_END in Hrun. by injection Hrun as <-.
    + rewrite run_unfold in Hrun by done.
      destruct (step g n st) as [[n' st'']|] eqn:Hs; [|done].
      eapply IH; [|done]. by eapply reachable_step.
Qed.

Lemma run1_replayed :
  run (Option1.graph (chat := replayed_model) (pyd := exact_types)) 4 N_agent
    (initial_state lille_seed) = Finished state_after_respond1.
Proof. vm_compute. reflexivity. Qed.

Lemma pairing_invariant_witness :
  paired (messages state_after_respond1) = true.
Proof.
  destruct (pairing_invariant (chat := replayed_model) (pyd := exact_types)
              lille_seed END state_after_respond1 replayed_model_unique_ids)
    as (Hpaired & _).
  - left. exact (run_reachable _ _ _ _ _ _ (reachable_init _ _) run1_replayed).
  - apply Hpaired. by right.
Defined.

(** ** Further facts about the tool and about completed runs *)

(** X2. [get_weather] returns a description exactly for the three cities of
    its annotation; for every other value it raises. *)
Theorem get_weather_returns_iff_supported (city : pyval) :
  (∃ text, get_weather city = Ok text) ↔ city ∈ supported_cities.
Proof.
  split.
  - intros [text Hok]. unfold get_weather in Hok.
    destruct city as [| | | |s| |]; simpl in Hok; try done.
    unfold supported_cities.
    repeat case_bool_decide; subst; try done; set_solver.
  - unfold supported_cities. intros Hin.
    repeat (apply elem_of_cons in Hin as [->|Hin]; [by eexists|]).
    by apply elem_of_nil in Hin.
Qed.

Section CompletedRuns.
Context {chat : ChatOpenAI} {pyd : Pydantic}.

Lemma route1_not_END tcs : route1 tcs ≠ END.
Proof. destruct tcs as [|tc [|tc' rest]]; simpl; try done. by case_bool_decide. Qed.

Lemma route2_not_END tcs : route2 tcs ≠ END.
Proof. by destruct tcs. Qed.

Lemma finished1_has_final_response fuel n st st' :
  n ≠ END → run Option1.graph fuel n st = Finished st' →
  is_Some (final_response st').
Proof.
  revert n st. induction fuel as [|fuel IH]; intros n st Hn Hrun; [by destruct n|].
  rewrite run_unfold in Hrun by done.
  destruct (step Option1.graph n st) as [[n' st'']|] eqn:Hstep; [|done].
  destruct n; [| | |done].
  - rewrite step_agent1 in Hstep.
    destruct (Option1.model_with_response_tool _) as [[text tcs]|]; [|done].
    injection Hstep as <- <-. eapply (IH (route1 tcs)); [apply route1_not_END|done].
  - simpl in Hstep. inv_bind Hstep. injection Hstep as <- <-.
    by eapply (IH N_agent).
  - simpl in Hstep. inv_bind Hstep. injection Hstep as <- <-.
    rewrite run_END in Hrun. injection Hrun as <-.
    match goal with Hr : Option1.respond _ = Ok _ |- _ =>
      apply respond1_Ok in Hr as (? & ? & ? & ? & _ & _ & _ & _ & ->) end.
    by eexists.
Qed.

Lemma finished2_has_final_response fuel n st st' :
  n ≠ END → run Option2.graph fuel n st = Finished st' →
  is_Some (final_response st').
Proof.
  revert n st. induction fuel as [|fuel IH]; intros n st Hn Hrun; [by destruct n|].
  rewrite run_unfold in Hrun by done.
  destruct (step Option2.graph n st) as [[n' st'']|] eqn:Hstep; [|done].
  destruct n; [| | |done].
  - rewrite step_agent2 in Hstep.
    destruct (model_with_tools _) as [[text tcs]|]; [|done].
    injection Hstep as <- <-. eapply (IH (route2 tcs)); [apply route2_not_END|done].
  - simpl in Hstep. inv_bind Hstep. injection Hstep as <- <-.
    by eapply (IH N_agent).
  - simpl in Hstep. inv_bind Hstep. injection Hstep as <- <-.
    rewrite run_END in Hrun. injection Hrun as <-.
    match goal with Hr : Option2.respond _ = Ok _ |- _ =>
      apply respond2_Ok in Hr as (? & ? & ? & _ & _ & _ & ->) end.
    by eexists.
Qed.

(** X3. A run of either graph that ends has passed through the finalizer:
    its final state carries a [final_response], so reading that key from the
    result of [graph.invoke] succeeds. *)
Theorem finished_run_has_final_response (fuel : nat) (seed : string) (st' : AgentState) :
  run Option1.graph fuel N_agent (initial_state seed) = Finished st' ∨
  run Option2.graph fuel N_agent (initial_state seed) = Finished st' →
  ∃ r, final_response st' = Some r ∧
       (run Option1.graph fuel N_agent (initial_state seed) = Finished st' →
        invoke Option1.graph fuel seed = Finished r) ∧
       (run Option2.graph fuel N_agent (initial_state seed) = Finished st' →
        invoke Option2.graph fuel seed = Finished r).
Proof.
  intros Hrun.
  assert (is_Some (final_response st')) as [r Hr].
  { destruct Hrun as [Hrun|Hrun].
    - by apply (finished1_has_final_response fuel N_agent (initial_state seed)).
    - by apply (finished2_has_final_response fuel N_agent (initial_state seed)). }
  exists r. unfold invoke. split_and!; [done|..]; intros ->; by rewrite Hr.
Qed.

End CompletedRuns.

Lemma finished_run_has_final_response_witness :
  ∃ r, final_response state_after_respond1 = Some r ∧
       invoke (Option1.graph (chat := replayed_model) (pyd := exact_types)) 4 lille_seed =
       Finished r.
Proof.
  destruct (finished_run_has_final_response (chat := replayed_model) (pyd := exact_types)
              4 lille_seed state_after_respond1 (or_introl run1_replayed))
    as (r & Hset & Hinvoke & _).
  exists r. split; [exact Hset|exact (Hinvoke run1_replayed)].
Defined.

(** ** The setup cell *)

Section SetEnv.
Import Setup.
Context {os : Os}.

Implicit Types (key : string) (p : Process).

Lemma set_env_present key p :
  is_Some (environ p !! key) → _set_env key p = (Returns (), p).
Proof.
  intros Hset. unfold _set_env.
  rewrite bool_decide_eq_true_2; [done|]. by apply elem_of_dom.
Qed.

Lemma set_env_absent key p :
  environ p !! key = None →
  _set_env key p =
  let p1 := mkProcess (environ p) (prompted p ++ [key +:+ ":"]) in
  match getpass (key +:+ ":") with
  | Returns value =>
      if putenv_accepts key value
      then (Returns (), mkProcess (<[key := value]> (environ p)) (prompted p1))
      else (Throws ValueError, p1)
  | Throws e => (Throws e, p1)
  end.
Proof.
  intros Hunset. unfold _set_env.
  rewrite bool_decide_eq_false_2; [|by apply not_elem_of_dom].
  simpl. destruct (getpass _); [|done]. unfold environ_setitem. simpl.
  by destruct (putenv_accepts _ _).
Qed.

(** X4. [_set_env] never overwrites or removes a variable: every variable
    set before the call keeps its value, and variables other than [key] are
    as they were.  When [key] is already set nothing happens at all (no
    prompt); when it is not, exactly one prompt, the key followed by a
    colon, is shown.  After a normal return [key] is set; after an exception
    the environment is unchanged. *)
Theorem set_env_keeps_existing_values key p :
  let r := (_set_env key p).1 in
  let p' := (_set_env key p).2 in
  (∀ k v, environ p !! k = Some v → environ p' !! k = Some v) ∧
  (∀ k, k ≠ key → environ p' !! k = environ p !! k) ∧
  (is_Some (environ p !! key) → r = Returns () ∧ p' = p) ∧
  (environ p !! key = None → prompted p' = prompted p ++ [key +:+ ":"]) ∧
  (r = Returns () → is_Some (environ p' !! key)) ∧
  (∀ e, r = Throws e → environ p' = environ p).
Proof.
  intros r p'. subst r p'.
  destruct (environ p !! key) as [v0|] eqn:Hkey.
  - rewrite set_env_present by (rewrite Hkey; by eexists). simpl.
    split_and!; rewrite ?Hkey; try done; eauto.
  - rewrite set_env_absent by done. simpl.
    destruct (getpass _) as [value|e]; [destruct (putenv_accepts _ _)|]; simpl;
      (split_and!; try done; try (by intros [? ?])).
    + intros k v Hk. rewrite lookup_insert_ne; [done|]. congruence.
    + intros k Hk. by rewrite lookup_insert_ne.
    + intros _. rewrite lookup_insert_eq. by eexists.
Qed.

(** X5. [_set_env] is idempotent: after a call that returned normally, a
    second call with the same key returns normally, shows no prompt and
    changes nothing. *)
Theorem set_env_idempotent key p :
  (_set_env key p).1 = Returns () →
  _set_env key (_set_env key p).2 = (Returns (), (_set_env key p).2).
Proof.
  intros Hok. apply set_env_present.
  by apply (set_env_keeps_existing_values key p).
Qed.

End SetEnv.

Lemma set_env_idempotent_witness :
  Setup.setup (os := Setup.typing_user)
    (Setup.setup (os := Setup.typing_user) Setup.fresh_process).2 =
  (Setup.Returns (), (Setup.setup (os := Setup.typing_user) Setup.fresh_process).2) ∧
  Setup.prompted (Setup.setup (os := Setup.typing_user) Setup.fresh_process).2 =
  ["OPENAI_API_KEY:"].
Proof.
  split; [|vm_compute; reflexivity].
  apply (set_env_idempotent (os := Setup.typing_user) "OPENAI_API_KEY" Setup.fresh_process).
  vm_compute. reflexivity.
Defined.

(** ** The log and the record along a run *)

Section AlongARun.
Context {chat : ChatOpenAI} {pyd : Pydantic}.

Implicit Types (st : AgentState) (n : Node) (log : list Message).

Lemma step_extends_log g n st n' st' :
  step g n st = Ok (n', st') → messages st `prefix_of` messages st'.
Proof.
  destruct n; simpl; intros Hstep; inv_bind Hstep; injection Hstep as <- <-;
    try done; by apply prefix_app_r.
Qed.

Lemma run_extends_log g fuel n st st' :
  run g fuel n st = Finished st' → messages st `prefix_of` messages st'.
Proof.
  revert n st. induction fuel as [|fuel IH]; intros n st Hrun.
  - destruct n; try done. by injection Hrun as <-.
  - destruct (decide (n = END)) as [->|Hn].
    + rewrite run_END in Hrun. by injection Hrun as <-.
    + rewrite run_unfold in Hrun by done.
      destruct (step g n st) as [[n' st1]|] eqn:Hstep; [|done].
      etrans; [by eapply step_extends_log|by eapply IH].
Qed.

Lemma reachable_keeps_seed g seed n st :
  reachable g seed n st → [HumanMessage seed] `prefix_of` messages st.
Proof.
  induction 1 as [|n st n' st' _ IH _ Hstep]; [done|].
  etrans; [exact IH|by eapply step_extends_log].
Qed.

Lemma tools_step_keeps_final_response registry st u :
  ToolNode registry st = Ok u → upd_final_response u = None.
Proof. unfold ToolNode. intros Hu. inv_bind Hu. by injection Hu as <-. Qed.

Lemma step1_keeps_final_response n st n' st' :
  step Option1.graph n st = Ok (n', st') → n' ≠ END →
  final_response st' = final_response st.
Proof.
  intros Hstep Hn'. destruct n; simpl in Hstep.
  - inv_bind Hstep. injection Hstep as <- <-.
    match goal with Hc : Option1.call_model _ = Ok _ |- _ =>
      unfold Option1.call_model in Hc; inv_bind Hc; by injection Hc as <- end.
  - inv_bind Hstep. injection Hstep as <- <-. simpl.
    match goal with Hc : ToolNode _ _ = Ok _ |- _ =>
      by rewrite (tools_step_keeps_final_response _ _ _ Hc) end.
  - inv_bind Hstep. by injection Hstep as <- <-.
  - by injection Hstep as <- <-.
Qed.

Lemma step2_keeps_final_response n st n' st' :
  step Option2.graph n st = Ok (n', st') → n' ≠ END →
  final_response st' = final_response st.
Proof.
  intros Hstep Hn'. destruct n; simpl in Hstep.
  - inv_bind Hstep. injection Hstep as <- <-.
    match goal with Hc : Option2.call_model _ = Ok _ |- _ =>
      unfold Option2.call_model in Hc; inv_bind Hc; by injection Hc as <- end.
  - inv_bind Hstep. injection Hstep as <- <-. simpl.
    match goal with Hc : ToolNode _ _ = Ok _ |- _ =>
      by rewrite (tools_step_keeps_final_response _ _ _ Hc) end.
  - inv_bind Hstep. by injection Hstep as <- <-.
  - by injection Hstep as <- <-.
Qed.

(** X7. [final_response] is written by the finalizer only: in a run of
    either graph from a seed, the key is still unset at every point before
    the run has ended, however many agent and tool rounds have passed. *)
Theorem final_response_unset_until_the_end seed n st :
  reachable Option1.graph seed n st ∨ reachable Option2.graph seed n st →
  n ≠ END → final_response st = None.
Proof.
  intros [Hr|Hr].
  - induction Hr as [|n st n' st' _ IH Hn Hstep]; [done|].
    intros Hn'. rewrite (step1_keeps_final_response _ _ _ _ Hstep Hn'). by apply IH.
  - induction Hr as [|n st n' st' _ IH Hn Hstep]; [done|].
    intros Hn'. rewrite (step2_keeps_final_response _ _ _ _ Hstep Hn'). by apply IH.
Qed.

End AlongARun.

Lemma step1_replayed_first_turn :
  step (Option1.graph (chat := replayed_model) (pyd := exact_types)) N_agent
    (initial_state lille_seed) = Ok (N_tools, state_after_first_turn).
Proof. vm_compute. reflexivity. Qed.

Lemma final_response_unset_until_the_end_witness :
  final_response state_after_first_turn = None.
Proof.
  apply (final_response_unset_until_the_end (chat := replayed_model) (pyd := exact_types)
           lille_seed N_tools state_after_first_turn).
  - left. eapply reachable_step; [apply reachable_init|discriminate|].
    exact step1_replayed_first_turn.
  - discriminate.
Defined.

(** ** What a completed run returns *)

Section CompletedRunShape.
Context {chat : ChatOpenAI} {pyd : Pydantic}.

Implicit Types (st : AgentState) (n : Node) (log : list Message).

Lemma finished1_shape fuel n st st' :
  n = N_agent ∨ n = N_tools →
  run Option1.graph fuel n st = Finished st' →
  ends_with_schema_call (messages st) st'.
Proof.
  revert n st. induction fuel as [|fuel IH]; intros n st Hn Hrun.
  { by destruct Hn as [-> | ->]. }
  rewrite run_unfold in Hrun by by destruct Hn as [-> | ->].
  destruct (step Option1.graph n st) as [[n1 st1]|] eqn:Hstep; [|done].
  assert (ends_with_schema_call (messages st1) st' →
          ends_with_schema_call (messages st) st') as Hweaken.
  { intros (log & text & tc & r & ? & ? & ? & ? & ?).
    exists log, text, tc, r. split_and!; try done.
    etrans; [by eapply step_extends_log|done]. }
  destruct Hn as [-> | ->].
  - rewrite step_agent1 in Hstep.
    destruct (Option1.model_with_response_tool _) as [[text tcs]|]; [|done].
    injection Hstep as <- <-.
    destruct tcs as [|tc [|tc' rest]]; simpl in Hrun;
      try (apply Hweaken; eapply IH; [by right|done]).
    case_bool_decide as Hname;
      [|apply Hweaken; eapply IH; [by right|done]].
    destruct fuel as [|fuel]; [done|].
    rewrite run_respond in Hrun. simpl node_respond in Hrun.
    rewrite respond1_eval in Hrun.
    destruct (WeatherResponse (tc_args tc)) as [r|] eqn:Hr; [|done].
    injection Hrun as <-. exists (messages st), text, tc, r.
    split_and!; try done. simpl. by rewrite <- app_assoc.
  - simpl in Hstep. inv_bind Hstep. injection Hstep as <- <-.
    apply Hweaken. eapply IH; [by left|done].
Qed.

Lemma finished2_shape fuel n st st' :
  n = N_agent ∨ n = N_tools →
  run Option2.graph fuel n st = Finished st' →
  ends_with_structured_call (messages st) st'.
Proof.
  revert n st. induction fuel as [|fuel IH]; intros n st Hn Hrun.
  { by destruct Hn as [-> | ->]. }
  rewrite run_unfold in Hrun by by destruct Hn as [-> | ->].
  destruct (step Option2.graph n st) as [[n1 st1]|] eqn:Hstep; [|done].
  assert (ends_with_structured_call (messages st1) st' →
          ends_with_structured_call (messages st) st') as Hweaken.
  { intros (log & m & text & raw & r & ? & ? & ? & ? & ?).
    exists log, m, text, raw, r. split_and!; try done.
    etrans; [by eapply step_extends_log|done]. }
  destruct Hn as [-> | ->].
  - rewrite step_agent2 in Hstep.
    destruct (model_with_tools _) as [[text tcs]|]; [|done].
    injection Hstep as <- <-.
    destruct tcs as [|tc rest]; simpl in Hrun;
      [|apply Hweaken; eapply IH; [by right|done]].
    destruct fuel as [|fuel]; [done|].
    rewrite run_respond in Hrun. simpl node_respond in Hrun.
    destruct (Option2.respond _) as [u|] eqn:Hu; [|done].
    injection Hrun as <-.
    apply respond2_Ok in Hu as (input & raw & r & Hinput & Hraw & Hr & ->).
    simpl in Hinput.
    destruct (messages st) as [|m0 log0 _] using rev_ind; [done|].
    rewrite <- app_assoc in Hinput. simpl in Hinput.
    rewrite respond_input_eval in Hinput. injection Hinput as <-.
    exists log0, m0, text, raw, r. simpl.
    rewrite app_nil_r, <- app_assoc. by split_and!.
  - simpl in Hstep. inv_bind Hstep. injection Hstep as <- <-.
    apply Hweaken. eapply IH; [by left|done].
Qed.

(** X8. What Option 1 returns.  Whenever a run of the Option 1 graph ends,
    from any starting log, the log it ends with consists of an extension of
    the starting log, then an assistant message whose only tool call is a
    [WeatherResponse] call, then the finalizer's tool message carrying that
    call's identifier; and the record returned is exactly the one validated
    from that call's arguments. *)
Theorem option1_returns_the_last_call fuel st st' :
  run Option1.graph fuel N_agent st = Finished st' →
  ends_with_schema_call (messages st) st'.
Proof. intros Hrun. eapply finished1_shape; [by left|done]. Qed.

(** X9. What Option 2 returns.  Whenever a run of the Option 2 graph ends,
    from any starting log, the log it ends with has an assistant message
    without tool calls as its last message, and the record returned is the
    one validated from the structured model's answer to a single human
    message holding the content of the message just before it; the assistant
    message's own text is not passed on. *)
Theorem option2_returns_the_structured_answer fuel st st' :
  run Option2.graph fuel N_agent st = Finished st' →
  ends_with_structured_call (messages st) st'.
Proof. intros Hrun. eapply finished2_shape; [by left|done]. Qed.

End CompletedRunShape.

Lemma option1_returns_the_last_call_witness :
  ends_with_schema_call (pyd := exact_types)
    (messages (initial_state lille_seed)) state_after_respond1.
Proof.
  exact (option1_returns_the_last_call (chat := replayed_model) (pyd := exact_types)
           4 (initial_state lille_seed) state_after_respond1 run1_replayed).
Defined.

Lemma run2_chatty :
  run (Option2.graph (chat := chatty_model) (pyd := exact_types)) 2 N_agent
    (initial_state "hello") =
  Finished (mkState (messages state_without_tool_round) (Some (list_to_map recorded_args))).
Proof. vm_compute. reflexivity. Qed.

Lemma option2_returns_the_structured_answer_witness :
  ends_with_structured_call (chat := chatty_model) (pyd := exact_types)
    (messages (initial_state "hello"))
    (mkState (messages state_without_tool_round) (Some (list_to_map recorded_args))).
Proof.
  exact (option2_returns_the_structured_answer (chat := chatty_model) (pyd := exact_types)
           2 (initial_state "hello") _ run2_chatty).
Defined.

(** ** Malformed states *)

Section MalformedStates.
Context {chat : ChatOpenAI} {pyd : Pydantic}.

Implicit Types (st : AgentState) (log : list Message) (m : Message).

Lemma getitem_back_short {A} (l : list A) (k : nat) :
  length l ≤ k → getitem_back l k = Raise IndexError.
Proof.
  intros Hlen. unfold getitem_back.
  rewrite lookup_ge_None_2; [done|]. by rewrite length_reverse.
Qed.

(** X10. The routers on a state the graph never gives them.  On an empty
    log both raise [IndexError]; on a log whose last message is a human or a
    tool message both raise [AttributeError], since only an assistant message
    has [tool_calls].  Right after [call_model] neither can raise: the agent
    step of either graph fails exactly when the model call fails, with the
    model's error. *)
Theorem routers_raise_only_on_malformed_logs log m fr e :
  Option1.should_continue (mkState [] fr) = Raise IndexError ∧
  Option2.should_continue (mkState [] fr) = Raise IndexError ∧
  (tool_calls m = Raise (AttributeError "tool_calls") →
     Option1.should_continue (mkState (log ++ [m]) fr) =
       Raise (AttributeError "tool_calls") ∧
     Option2.should_continue (mkState (log ++ [m]) fr) =
       Raise (AttributeError "tool_calls")) ∧
  (step Option1.graph N_agent (mkState log fr) = Raise e ↔
     Option1.model_with_response_tool log = Raise e) ∧
  (step Option2.graph N_agent (mkState log fr) = Raise e ↔
     model_with_tools log = Raise e).
Proof.
  split_and!; try done.
  - intros Hm. unfold Option1.should_continue, Option2.should_continue. simpl.
    rewrite getitem_back_last. simpl. by rewrite Hm.
  - rewrite step_agent1. simpl.
    destruct (Option1.model_with_response_tool log) as [[text tcs]|e']; [done|].
    split; by intros [= ->].
  - rewrite step_agent2. simpl.
    destruct (model_with_tools log) as [[text tcs]|e']; [done|].
    split; by intros [= ->].
Qed.

(** X11. Option 1's finalizer outside the router's guard.  On an empty log
    it raises [IndexError]; on a log ending with a human or tool message,
    [AttributeError]; on an assistant message without tool calls,
    [IndexError] again.  On an assistant message with several tool calls it
    reads the first one only: the record and the tool message are those of
    the first call, as if the others were not there. *)
Theorem respond1_reads_the_first_call_only log m text tc rest fr :
  Option1.respond (mkState [] fr) = Raise IndexError ∧
  (tool_calls m = Raise (AttributeError "tool_calls") →
     Option1.respond (mkState (log ++ [m]) fr) = Raise (AttributeError "tool_calls")) ∧
  Option1.respond (mkState (log ++ [AIMessage text []]) fr) = Raise IndexError ∧
  Option1.respond (mkState (log ++ [AIMessage text (tc :: rest)]) fr) =
    Option1.respond (mkState (log ++ [AIMessage text [tc]]) fr) ∧
  (∀ u, Option1.respond (mkState (log ++ [AIMessage text (tc :: rest)]) fr) = Ok u →
     upd_messages u = [ToolMessage "Here is your structured response" (tc_id tc)] ∧
     ∃ r, WeatherResponse (tc_args tc) = Ok r ∧ upd_final_response u = Some r).
Proof.
  assert (Option1.respond (mkState (log ++ [AIMessage text (tc :: rest)]) fr) =
          Option1.respond (mkState (log ++ [AIMessage text [tc]]) fr)) as Hfirst.
  { unfold Option1.respond. simpl. by rewrite !getitem_back_last. }
  split_and!; try done.
  - intros Hm. unfold Option1.respond. simpl.
    rewrite getitem_back_last. simpl. by rewrite Hm.
  - unfold Option1.respond. simpl. by rewrite getitem_back_last.
  - intros u. rewrite Hfirst, respond1_eval.
    destruct (WeatherResponse (tc_args tc)) as [r|] eqn:Hr; [|done].
    intros [= <-]. eauto.
Qed.

(** X12. Option 2's finalizer needs two messages.  On a log with fewer than
    two messages it raises [IndexError] before any model is called.  In a
    run from a seed this cannot happen: whenever the finalizer is reached,
    the log is the seed's log extended by at least the assistant's closing
    message, and the structured call gets one human message holding the
    content of the message before that one. *)
Theorem respond2_needs_two_messages seed st :
  (length (messages st) < 2 → Option2.respond st = Raise IndexError) ∧
  (reachable Option2.graph seed N_respond st →
     ∃ log m text,
       messages st = log ++ [m; AIMessage text []] ∧
       [HumanMessage seed] `prefix_of` log ++ [m] ∧
       Option2.respond_input st = Ok [HumanMessage (content m)]).
Proof.
  split.
  - intros Hlen. unfold Option2.respond, Option2.respond_input.
    rewrite getitem_back_short; [done|lia].
  - intros Hr. inversion Hr as [|n0 st0 ? ? Hr0 Hn0 Hstep]; subst.
    pose proof (reachable_keeps_seed _ _ _ _ Hr0) as Hseed.
    destruct n0; [| | |done].
    + rewrite step_agent2 in Hstep.
      destruct (model_with_tools _) as [[text tcs]|]; [|done].
      destruct tcs as [|tc rest]; [|done]. injection Hstep as <-.
      destruct (messages st0) as [|m0 log0 _] using rev_ind.
      { by apply prefix_nil_not in Hseed. }
      exists log0, m0, text. simpl. rewrite <- app_assoc. simpl.
      split_and!; [done|done|]. by rewrite respond_input_eval.
    + simpl in Hstep. by inv_bind Hstep.
    + simpl in Hstep. by inv_bind Hstep.
Qed.

(** X13. The two routers compared on the same assistant message.  They never
    both finalize it: a message without tool calls is finalized by Option 2
    and continued by Option 1; a sole [WeatherResponse] call is finalized by
    Option 1 and continued by Option 2; every other message is continued by
    both. *)
Theorem routers_never_both_finalize log text tcs fr :
  let st := mkState (log ++ [AIMessage text tcs]) fr in
  ¬ (Option1.should_continue st = Ok "respond" ∧
     Option2.should_continue st = Ok "respond") ∧
  (tcs = [] →
     Option1.should_continue st = Ok "continue" ∧
     Option2.should_continue st = Ok "respond") ∧
  (sole_schema_call tcs →
     Option1.should_continue st = Ok "respond" ∧
     Option2.should_continue st = Ok "continue") ∧
  (tcs ≠ [] → ¬ sole_schema_call tcs →
     Option1.should_continue st = Ok "continue" ∧
     Option2.should_continue st = Ok "continue").
Proof.
  intros st. subst st. rewrite should_continue1_eval, should_continue2_eval.
  unfold sole_schema_call.
  destruct tcs as [|tc [|tc' rest]]; simpl.
  - split_and!; try done.
    + by intros [? ?].
    + by intros (? & ? & ?).
  - case_bool_decide as Hname.
    + split_and!; try done.
      * by intros [? ?].
      * intros _ Hno. exfalso. apply Hno. eauto.
    + split_and!; try done.
      * by intros [? ?].
      * by intros (? & [= <-] & ?).
  - split_and!; try done.
    + by intros [? ?].
    + by intros (? & ? & ?).
Qed.

End MalformedStates.

(** ** What Option 2's finalizer does not read *)

(** X15. Option 2's finalizer reads one thing from the state: the content of
    the second-to-last message.  Two states whose second-to-last messages
    have the same content give the same outcome, whatever the kind of that
    message, the assistant's closing message, the earlier log and
    [final_response] are. *)
Theorem respond2_reads_one_content_only {chat : ChatOpenAI} {pyd : Pydantic}
    (log1 log2 : list Message) (m1 m2 last1 last2 : Message)
    (fr1 fr2 : option kwargs) :
  content m1 = content m2 →
  Option2.respond (mkState (log1 ++ [m1; last1]) fr1) =
  Option2.respond (mkState (log2 ++ [m2; last2]) fr2) ∧
  Option2.respond (mkState (log1 ++ [m1; last1]) fr1) =
  (response ← model_with_structured_output [HumanMessage (content m1)];
   Ok {| upd_messages := []; upd_final_response := Some response |}).
Proof.
  intros Hcontent. unfold Option2.respond. split.
  - rewrite !respond_input_eval. by rewrite Hcontent.
  - by rewrite respond_input_eval.
Qed.

Lemma respond2_reads_one_content_only_witness :
  Option2.respond (chat := replayed_model) (pyd := exact_types)
    (mkState ([] ++ [HumanMessage "hello"; AIMessage "Hello! How can I help you?" []]) None) =
  Option2.respond (chat := replayed_model) (pyd := exact_types)
    (mkState ([HumanMessage lille_seed] ++
              [ToolMessage "hello" "call_1"; AIMessage "It is 65 degrees in Lille." []])
       (Some ∅)).
Proof.
  destruct (respond2_reads_one_content_only (chat := replayed_model) (pyd := exact_types)
              [] [HumanMessage lille_seed]
              (HumanMessage "hello") (ToolMessage "hello" "call_1")
              (AIMessage "Hello! How can I help you?" [])
              (AIMessage "It is 65 degrees in Lille." [])
              None (Some ∅) eq_refl) as [Hsame _].
  exact Hsame.
Defined.
